(** * StyleBuilder: shorthand style expansion

    A shallow embedding of [src/StyleBuilder.js] (the ES2015 class whose
    single instance is the module's default export) and the properties of
    its specification that were checked against it.

    JavaScript data is embedded as follows.
    - Strings are [string]s of 8-bit characters; indexing a string yields
      its one-character substrings.
    - Numbers are integers ([Z]); the code only copies them, except for an
      assignment to the [length] of an array.
    - Property keys are split the way the language orders them: a key that
      is a canonical array index is [KIdx i], any other key is [KStr s]
      (so [KStr s] is never used for a string that spells an index).
      Own properties are kept in enumeration order: index keys ascending,
      then string keys in insertion order.
    - An array is its list of slots ([None] is a hole) together with the
      named properties it carries besides; a plain object is its list of
      properties.
    - A callable is a [closure]: a host function, known by a number and
      interpreted by an environment at invocation time, or the arrow
      function that [build] creates around another callable.
    - Array indices are natural numbers, taken to be below the bound of
      array indices (2^32 - 1).
    - A call either returns, throws, or leaves the fragment covered here
      ([Unmodelled]: a prototype replaced through [__proto__], a user
      callable reached through a property named [map], a non-numeric value
      converted to an array length). *)

From Stdlib Require Import List String Ascii ZArith Bool Arith Lia.
Import ListNotations.

Local Open Scope string_scope.
Local Open Scope list_scope.

Set Warnings "-register-all".

(** ** Outcomes *)

Inductive exn : Type := TypeError | RangeError.

Inductive outcome (A : Type) : Type :=
| Ok (a : A)
| Throw (e : exn)
| Unmodelled.

Arguments Ok {A} a.
Arguments Throw {A} e.
Arguments Unmodelled {A}.

Definition bind {A B : Type} (m : outcome A) (f : A -> outcome B) : outcome B :=
  match m with
  | Ok a => f a
  | Throw e => Throw e
  | Unmodelled => Unmodelled
  end.

Notation "x <- m ;; k" := (bind m (fun x => k))
  (at level 61, m at next level, right associativity).

Definition omap {A B : Type} (f : A -> B) (m : outcome A) : outcome B :=
  x <- m ;; Ok (f x).

(** ** String primitives *)

(** [s.split(sep)] for a one-character separator. *)
Fixpoint split (sep : ascii) (s : string) : list string :=
  match s with
  | EmptyString => [EmptyString]
  | String c rest =>
      if Ascii.eqb c sep then EmptyString :: split sep rest
      else match split sep rest with
           | tok :: toks => String c tok :: toks
           | [] => [String c EmptyString]
           end
  end.

(** [toks.join(sep)], the inverse of [split]. *)
Fixpoint join (sep : ascii) (toks : list string) : string :=
  match toks with
  | [] => EmptyString
  | [tok] => tok
  | tok :: rest => tok ++ String sep (join sep rest)
  end.

(** [s.indexOf(u)]: position of the first occurrence of [u], or -1. *)
Fixpoint indexOf (s u : string) : Z :=
  if String.prefix u s then 0%Z
  else match s with
       | EmptyString => (-1)%Z
       | String _ rest =>
           let r := indexOf rest u in
           if (r <? 0)%Z then (-1)%Z else (r + 1)%Z
       end.

(** [arr.indexOf(x)] on an array of strings (strict equality). *)
Fixpoint array_indexOf (arr : list string) (x : string) : Z :=
  match arr with
  | [] => (-1)%Z
  | y :: rest =>
      if String.eqb y x then 0%Z
      else let r := array_indexOf rest x in
           if (r <? 0)%Z then (-1)%Z else (r + 1)%Z
  end.

(** Whether a character occurs in a string. *)
Fixpoint occurs (c : ascii) (s : string) : bool :=
  match s with
  | EmptyString => false
  | String c' rest => Ascii.eqb c' c || occurs c rest
  end.

(** The one-character substrings of a string, in order. *)
Fixpoint chars (s : string) : list string :=
  match s with
  | EmptyString => []
  | String c rest => String c EmptyString :: chars rest
  end.

(** [arr.map((v, i) => f v i)] on a dense array. *)
Fixpoint mapi_from {A B : Type} (i : nat) (f : A -> nat -> B) (l : list A) : list B :=
  match l with
  | [] => []
  | x :: rest => f x i :: mapi_from (S i) f rest
  end.

Definition mapi {A B : Type} (f : A -> nat -> B) (l : list A) : list B :=
  mapi_from 0 f l.

(** ** Values *)

Inductive key : Type :=
| KIdx (i : nat)
| KStr (s : string).

Inductive closure : Type :=
| Host (id : nat)
| Wrapped (c : closure).

Inductive val : Type :=
| VUndef
| VNull
| VBool (b : bool)
| VNum (z : Z)
| VStr (s : string)
| VFun (c : closure)
| VArr (items : list (option val)) (named : list (key * val))
| VObj (props : list (key * val)).

Definition props_t : Type := list (key * val).

(** A dense array without named properties. *)
Definition dense (l : list val) : val := VArr (map Some l) [].

Definition key_eqb (a b : key) : bool :=
  match a, b with
  | KIdx i, KIdx j => Nat.eqb i j
  | KStr s, KStr t => String.eqb s t
  | _, _ => false
  end.

(** [arr[i]] on an array of strings: the element, or [undefined]. *)
Definition elem (arr : list string) (i : nat) : val :=
  match nth_error arr i with
  | Some s => VStr s
  | None => VUndef
  end.

(** [arr[i]] on a dense array of values. *)
Definition at_index (arr : list val) (i : nat) : val :=
  nth i arr VUndef.

(** Truthiness of a value in a condition. *)
Definition truthy (v : val) : bool :=
  match v with
  | VUndef | VNull => false
  | VBool b => b
  | VNum z => negb (z =? 0)%Z
  | VStr s => negb (String.eqb s "")
  | VFun _ | VArr _ _ | VObj _ => true
  end.

(** ** Own properties *)

Definition keys (props : props_t) : list key := map fst props.

Fixpoint lookup (k : key) (props : props_t) : option val :=
  match props with
  | [] => None
  | (k', v) :: rest => if key_eqb k k' then Some v else lookup k rest
  end.

Definition has_key (k : key) (props : props_t) : bool :=
  match lookup k props with Some _ => true | None => false end.

(** Overwrite the value of an existing property, which keeps its place. *)
Fixpoint replace (k : key) (v : val) (props : props_t) : props_t :=
  match props with
  | [] => []
  | (k', x) :: rest =>
      if key_eqb k k' then (k', v) :: rest else (k', x) :: replace k v rest
  end.

(** Create an index property: after the smaller indices, before the
    larger ones and before every string key. *)
Fixpoint insert_index (i : nat) (v : val) (props : props_t) : props_t :=
  match props with
  | (KIdx j, x) :: rest =>
      if Nat.ltb j i then (KIdx j, x) :: insert_index i v rest
      else (KIdx i, v) :: props
  | _ => (KIdx i, v) :: props
  end.

(** [obj[k] = v] on the own properties of an ordinary object. *)
Definition prop_set (props : props_t) (k : key) (v : val) : props_t :=
  if has_key k props then replace k v props
  else match k with
       | KIdx i => insert_index i v props
       | KStr _ => props ++ [(k, v)]
       end.

(** [arr[i] = v] on the slots of an array: the array grows, with holes,
    when [i] is past its end. *)
Fixpoint item_set (i : nat) (v : val) (items : list (option val))
  : list (option val) :=
  match i, items with
  | O, [] => [Some v]
  | O, _ :: rest => Some v :: rest
  | S i', [] => None :: item_set i' v []
  | S i', x :: rest => x :: item_set i' v rest
  end.

(** [arr.length = n]: truncate, or extend with holes. *)
Definition resize (n : nat) (items : list (option val)) : list (option val) :=
  firstn n items ++ repeat None (n - List.length items).

(** The array length a value converts to; a value that is not an integer
    in the range of array lengths raises [RangeError].  Converting a
    string or an object is outside the fragment. *)
Definition to_length (v : val) : outcome nat :=
  match v with
  | VNum z =>
      if ((0 <=? z) && (z <=? 4294967295))%Z then Ok (Z.to_nat z)
      else Throw RangeError
  | VBool b => Ok (if b then 1 else 0)
  | VNull => Ok 0
  | VUndef => Throw RangeError
  | VFun _ => Throw RangeError
  | VStr _ | VArr _ _ | VObj _ => Unmodelled
  end.

(** The object under construction ([newStyles]): an array or a plain
    object. *)
Inductive store : Type :=
| SArr (items : list (option val)) (named : props_t)
| SObj (props : props_t).

Definition finish (st : store) : val :=
  match st with
  | SArr items named => VArr items named
  | SObj props => VObj props
  end.

(** [target[k] = v].  The key [__proto__] reaches the accessor inherited
    from [Object.prototype], which ignores a primitive and otherwise
    replaces the prototype of [target]: values carry no prototype here, so
    that case is outside the fragment. *)
Definition set (target : store) (k : key) (v : val) : outcome store :=
  match k with
  | KStr name =>
      if String.eqb name "__proto__" then
        match v with
        | VUndef | VBool _ | VNum _ | VStr _ => Ok target
        | VNull | VFun _ | VArr _ _ | VObj _ => Unmodelled
        end
      else
        match target with
        | SObj props => Ok (SObj (prop_set props k v))
        | SArr items named =>
            if String.eqb name "length" then
              n <- to_length v ;; Ok (SArr (resize n items) named)
            else Ok (SArr items (prop_set named k v))
        end
  | KIdx i =>
      match target with
      | SObj props => Ok (SObj (prop_set props k v))
      | SArr items named => Ok (SArr (item_set i v items) named)
      end
  end.

(** The present slots of an array as index properties. *)
Fixpoint item_entries (i : nat) (items : list (option val)) : props_t :=
  match items with
  | [] => []
  | Some v :: rest => (KIdx i, v) :: item_entries (S i) rest
  | None :: rest => item_entries (S i) rest
  end.

(** Own enumerable properties, in enumeration order ([Object.keys] and
    the values read through them).  A primitive is read through its
    wrapper: a string has its characters, a number or boolean nothing. *)
Definition own_entries (v : val) : props_t :=
  match v with
  | VStr s => item_entries 0 (map (fun c => Some (VStr c)) (chars s))
  | VArr items named => item_entries 0 items ++ named
  | VObj props => props
  | VUndef | VNull | VBool _ | VNum _ | VFun _ => []
  end.

Fixpoint set_all (target : store) (entries : props_t) : outcome store :=
  match entries with
  | [] => Ok target
  | (k, v) :: rest => t <- set target k v ;; set_all t rest
  end.

(** [Object.assign(target, source)]. *)
Definition assign (target : store) (source : val) : outcome store :=
  set_all target (own_entries source).

(** Conversion to a string, as performed by [+] with a string operand, for
    the primitives that have a fixed spelling. *)
Definition to_string (v : val) : outcome string :=
  match v with
  | VStr s => Ok s
  | VUndef => Ok "undefined"
  | VNull => Ok "null"
  | VBool b => Ok (if b then "true" else "false")
  | VNum _ | VFun _ | VArr _ _ | VObj _ => Unmodelled
  end.

Fixpoint traverse_from {A B : Type} (i : nat) (f : A -> nat -> outcome B) (l : list A)
  : outcome (list B) :=
  match l with
  | [] => Ok []
  | x :: rest => y <- f x i ;; ys <- traverse_from (S i) f rest ;; Ok (y :: ys)
  end.

(** * The class StyleBuilder *)

Definition _borderStyles : list string :=
  ["none"; "hidden"; "dotted"; "dashed"; "solid"; "double"; "groove"; "ridge";
   "inset"; "outset"].

Definition _units : list string := ["px"; "em"; "pt"; "%"].

(** Converts 4 part values (like padding and margin) into an array, each
    index matching one of the 4 sub components. *)
Definition _explodeToFour (value : string) : list val :=
  let fourPartArray := [0; 1; 2; 3]%nat in
  let valueArray := split " " value in
  if Nat.eqb (List.length valueArray) 1 then
    map (fun _ => elem valueArray 0) fourPartArray
  else if Nat.eqb (List.length valueArray) 2 then
    mapi (fun _ i => elem valueArray (i mod 2)) fourPartArray
  else if Nat.eqb (List.length valueArray) 3 then
    mapi (fun _ i => elem valueArray (i mod 3 + i / 3)) fourPartArray
  else
    map VStr valueArray.

(** [x || ""] for an optional string argument. *)
Definition or_empty (x : option string) : string :=
  match x with
  | Some s => s
  | None => ""
  end.

(** Takes an array of length 4 with a prefix and suffix and converts it to
    an object with Top, Right, Bottom, Left. *)
Definition _applyFour (valueArr : list val) (prefix suffix : option string) : val :=
  let prefix := or_empty prefix in
  let suffix := or_empty suffix in
  let styles := [] in
  let styles := prop_set styles (KStr (prefix ++ "Top" ++ suffix)) (at_index valueArr 0) in
  let styles := prop_set styles (KStr (prefix ++ "Right" ++ suffix)) (at_index valueArr 1) in
  let styles := prop_set styles (KStr (prefix ++ "Bottom" ++ suffix)) (at_index valueArr 2) in
  let styles := prop_set styles (KStr (prefix ++ "Left" ++ suffix)) (at_index valueArr 3) in
  VObj styles.

(** The same with TopLeft, TopRight, BottomRight, BottomLeft. *)
Definition _applyFourCorner (valueArr : list val) (prefix suffix : option string)
  : val :=
  let prefix := or_empty prefix in
  let suffix := or_empty suffix in
  let styles := [] in
  let styles := prop_set styles (KStr (prefix ++ "TopLeft" ++ suffix)) (at_index valueArr 0) in
  let styles := prop_set styles (KStr (prefix ++ "TopRight" ++ suffix)) (at_index valueArr 1) in
  let styles := prop_set styles (KStr (prefix ++ "BottomRight" ++ suffix)) (at_index valueArr 2) in
  let styles := prop_set styles (KStr (prefix ++ "BottomLeft" ++ suffix)) (at_index valueArr 3) in
  VObj styles.

(** Adds px to any numbers that do not have an extension. *)
Definition applyPX (values : list string) : list string :=
  map (fun v =>
         if Nat.eqb (List.length (filter (fun u => (indexOf v u >? -1)%Z) _units)) 0
         then (v ++ "px")%string
         else v)
      values.

Definition margin (value : string) : val :=
  _applyFour (_explodeToFour value) (Some "margin") None.

Definition padding (value : string) : val :=
  _applyFour (_explodeToFour value) (Some "padding") None.

(** [_explodeToFour(x)] where [x] was read from an array: the method call
    [x.split] throws unless [x] is a string. *)
Definition explode_of (x : val) : outcome (list val) :=
  match x with
  | VStr s => Ok (_explodeToFour s)
  | _ => Throw TypeError
  end.

Definition borderRadius (value : string) : outcome val :=
  partOne <- explode_of (elem (split "/" value) 0) ;;
  partOne <-
    (if (indexOf value "/" >? -1)%Z then
       partTwo <- explode_of (elem (split "/" value) 1) ;;
       traverse_from 0
         (fun v index =>
            a <- to_string v ;;
            b <- to_string (at_index partTwo index) ;;
            Ok (VStr (a ++ " " ++ b)))
         partOne
     else Ok partOne) ;;
  Ok (_applyFourCorner partOne (Some "border") (Some "Radius")).

Definition borderStyle (value : string) : val :=
  _applyFour (_explodeToFour value) (Some "border") (Some "Style").

Definition borderColor (value : string) : val :=
  _applyFour (_explodeToFour value) (Some "border") (Some "Color").

Definition borderWidth (value : string) : val :=
  _applyFour (_explodeToFour value) (Some "border") (Some "Width").

(** A value interpolated in a template literal. *)
Definition interpolate (x : option string) : string :=
  match x with
  | Some s => s
  | None => "undefined"
  end.

Definition borderSide (value : string) (side : option string) : val :=
  let side := interpolate side in
  let styles := [] in
  if (array_indexOf _borderStyles value >? -1)%Z then
    let styles := prop_set styles (KStr ("border" ++ side ++ "Width")) (VStr "initial") in
    let styles := prop_set styles (KStr ("border" ++ side ++ "Style")) (VStr value) in
    let styles := prop_set styles (KStr ("border" ++ side ++ "Color")) (VStr "initial") in
    VObj styles
  else
    let values := split " " value in
    let styles :=
      if Nat.eqb (List.length values) 1 then
        let styles := prop_set styles (KStr ("border" ++ side ++ "Width")) (elem values 0) in
        let styles := prop_set styles (KStr ("border" ++ side ++ "Style")) (VStr "initial") in
        prop_set styles (KStr ("border" ++ side ++ "Color")) (VStr "initial")
      else styles in
    let styles :=
      if truthy (elem values 0)
      then prop_set styles (KStr ("border" ++ side ++ "Width")) (elem values 0)
      else styles in
    let styles :=
      if truthy (elem values 1)
      then prop_set styles (KStr ("border" ++ side ++ "Style")) (elem values 1)
      else styles in
    let styles :=
      if truthy (elem values 2)
      then prop_set styles (KStr ("border" ++ side ++ "Color")) (elem values 2)
      else styles in
    VObj styles.

Definition borderLeft (value : string) : val := borderSide value (Some "Left").
Definition borderRight (value : string) : val := borderSide value (Some "Right").
Definition borderTop (value : string) : val := borderSide value (Some "Top").
Definition borderBottom (value : string) : val := borderSide value (Some "Bottom").

Definition border (value : string) : outcome val :=
  t <- assign (SObj []) (borderSide value (Some "Left")) ;;
  t <- assign t (borderSide value (Some "Right")) ;;
  t <- assign t (borderSide value (Some "Top")) ;;
  t <- assign t (borderSide value (Some "Bottom")) ;;
  Ok (finish t).

(** [build(s)] for a string [s]: a string has a [length], its keys are its
    indices, and each character is a string stored under an index (no
    member of the builder is named by an index). *)
Definition build_string (s : string) : val := dense (map VStr (chars s)).

(** ** Member lookup

    [this[key]] finds the methods of the class, then [constructor], then
    what every object inherits from [Object.prototype].  Each entry gives
    the result of calling the member with one string argument, for the
    class as [src/StyleBuilder.js] declares it (the transpiled copy of the
    file merges with underscore's [extend] and calls its constructor as a
    plain function, which differs for [toString], [toLocaleString] and
    [constructor] only). *)

Definition method : Type := string -> outcome val.

Definition StyleBuilder_prototype : list (string * method) :=
  [ ("_explodeToFour", fun v => Ok (dense (_explodeToFour v)));
    ("_applyFour", fun v => Ok (_applyFour (map VStr (chars v)) None None));
    ("_applyFourCorner", fun v => Ok (_applyFourCorner (map VStr (chars v)) None None));
    (* [values.map] is not a function when [values] is a string *)
    ("applyPX", fun _ => Throw TypeError);
    ("margin", fun v => Ok (margin v));
    ("padding", fun v => Ok (padding v));
    ("borderRadius", borderRadius);
    ("borderStyle", fun v => Ok (borderStyle v));
    ("borderColor", fun v => Ok (borderColor v));
    ("borderWidth", fun v => Ok (borderWidth v));
    ("borderSide", fun v => Ok (borderSide v None));
    ("borderLeft", fun v => Ok (borderLeft v));
    ("borderRight", fun v => Ok (borderRight v));
    ("borderTop", fun v => Ok (borderTop v));
    ("borderBottom", fun v => Ok (borderBottom v));
    ("border", border);
    ("build", fun v => Ok (build_string v));
    (* a class constructor cannot be invoked without [new] *)
    ("constructor", fun _ => Throw TypeError) ].

Definition Object_prototype : list (string * method) :=
  [ ("toString", fun _ => Ok (VStr "[object Object]"));
    ("toLocaleString", fun _ => Ok (VStr "[object Object]"));
    (* the builder itself, which has no own enumerable property *)
    ("valueOf", fun _ => Ok (VObj []));
    ("hasOwnProperty", fun _ => Ok (VBool false));
    ("isPrototypeOf", fun _ => Ok (VBool false));
    ("propertyIsEnumerable", fun _ => Ok (VBool false));
    (* an object, not a function *)
    ("__proto__", fun _ => Throw TypeError);
    (* the accessor to define is missing *)
    ("__defineGetter__", fun _ => Throw TypeError);
    ("__defineSetter__", fun _ => Throw TypeError);
    (* undefined, or an accessor function: nothing to merge *)
    ("__lookupGetter__", fun _ => Ok VUndef);
    ("__lookupSetter__", fun _ => Ok VUndef) ].

Fixpoint find_method (name : string) (table : list (string * method)) : option method :=
  match table with
  | [] => None
  | (n, m) :: rest => if String.eqb name n then Some m else find_method name rest
  end.

Definition member (k : key) : option method :=
  match k with
  | KIdx _ => None
  | KStr name => find_method name (StyleBuilder_prototype ++ Object_prototype)
  end.

(** ** build *)

(** [x.length !== undefined].  Reading a property of [null] or
    [undefined] throws; strings, arrays and functions have a length;
    numbers and booleans have none; an object has the one it owns. *)
Definition length_defined (x : val) : outcome bool :=
  match x with
  | VUndef | VNull => Throw TypeError
  | VBool _ | VNum _ => Ok false
  | VStr _ | VFun _ | VArr _ _ => Ok true
  | VObj props =>
      match lookup (KStr "length") props with
      | None | Some VUndef => Ok false
      | Some _ => Ok true
      end
  end.

(** What [x.map] finds besides the array method: an own property named
    [map] comes first, and an object that is not an array inherits none. *)
Inductive map_member : Type := ArrayMap | UserMap | NotCallable.

Definition find_map (x : val) : map_member :=
  match x with
  | VArr _ named =>
      match lookup (KStr "map") named with
      | None => ArrayMap
      | Some (VFun _) => UserMap
      | Some _ => NotCallable
      end
  | VObj props =>
      match lookup (KStr "map") props with
      | Some (VFun _) => UserMap
      | _ => NotCallable
      end
  | _ => NotCallable
  end.

Section Walk.

(** The recursive occurrence of [build]. *)
Variable build : val -> outcome val.

(** [items.map(v => this.build(v))]: holes are skipped and kept. *)
Fixpoint map_build (items : list (option val)) : outcome (list (option val)) :=
  match items with
  | [] => Ok []
  | None :: rest => ys <- map_build rest ;; Ok (None :: ys)
  | Some v :: rest => y <- build v ;; ys <- map_build rest ;; Ok (Some y :: ys)
  end.

(** [value.map(v => this.build(v))] for a value whose length is defined.
    An own callable [map] is called by the source with the arrow function
    and whatever it returns is stored: such a call is outside the
    fragment. *)
Definition call_map (value : val) : outcome val :=
  match find_map value with
  | NotCallable => Throw TypeError
  | UserMap => Unmodelled
  | ArrayMap =>
      match value with
      | VArr items _ => ys <- map_build items ;; Ok (VArr ys [])
      | _ => Throw TypeError
      end
  end.

(** The body of the loop over [Object.keys(styles)]. *)
Definition visit (newStyles : store) (key : key) (value : val) : outcome store :=
  match value with
  | VStr s =>
      (* type == "string" *)
      match member key with
      | Some m => r <- m s ;; assign newStyles r
      | None => set newStyles key value
      end
  | VNull | VArr _ _ | VObj _ =>
      (* type == "object" *)
      d <- length_defined value ;;
      if d then r <- call_map value ;; set newStyles key r
      else r <- build value ;; set newStyles key r
  | VFun c =>
      (* type == "function" *)
      set newStyles key (VFun (Wrapped c))
  | VUndef | VBool _ | VNum _ =>
      set newStyles key value
  end.

Fixpoint visit_items (i : nat) (items : list (option val)) (newStyles : store)
  : outcome store :=
  match items with
  | [] => Ok newStyles
  | None :: rest => visit_items (S i) rest newStyles
  | Some v :: rest => t <- visit newStyles (KIdx i) v ;; visit_items (S i) rest t
  end.

Fixpoint visit_props (props : props_t) (newStyles : store) : outcome store :=
  match props with
  | [] => Ok newStyles
  | (k, v) :: rest => t <- visit newStyles k v ;; visit_props rest t
  end.

End Walk.

Fixpoint build (styles : val) : outcome val :=
  match styles with
  | VUndef | VNull => Throw TypeError
  | VBool _ | VNum _ => Ok (VObj [])
  | VFun _ => Ok (VArr [] [])
  | VStr s =>
      (* the loop over the characters, each stored under its index *)
      Ok (build_string s)
  | VArr items named =>
      t <- visit_items build 0 items (SArr [] []) ;;
      t <- visit_props build named t ;;
      Ok (finish t)
  | VObj props =>
      d <- length_defined styles ;;
      t <- visit_props build props (if d then SArr [] [] else SObj []) ;;
      Ok (finish t)
  end.

(** ** Invocation *)

(** A host callable is interpreted by the environment; the arrow function
    created by [build] calls the callable it wraps and builds the result. *)
Fixpoint call (env : nat -> list val -> outcome val) (c : closure) (args : list val)
  : outcome val :=
  match c with
  | Host id => env id args
  | Wrapped c' => r <- call env c' args ;; build r
  end.

(** * Vocabulary of the statements *)

Definition is_string (v : val) : Prop := exists s, v = VStr s.

Fixpoint mem_key (k : key) (l : list key) : bool :=
  match l with
  | [] => false
  | k' :: rest => key_eqb k k' || mem_key k rest
  end.

(** No key is listed twice. *)
Fixpoint distinct (l : list key) : bool :=
  match l with
  | [] => true
  | k :: rest => negb (mem_key k rest) && distinct rest
  end.

(** The text of slot [i] of an exploded shorthand. *)
Definition slot (half : string) (i : nat) : string :=
  match at_index (_explodeToFour half) i with
  | VStr s => s
  | _ => "undefined"
  end.

(** [u] occurs somewhere in [v]. *)
Definition contains (v u : string) : Prop :=
  exists p q, v = (p ++ u ++ q)%string.

(** [v.endsWith(u)]. *)
Fixpoint endsWith (v u : string) : bool :=
  if String.eqb v u then true
  else match v with
       | EmptyString => false
       | String _ rest => endsWith rest u
       end.

(** The own property [k] of a value, if it has one. *)
Definition own (v : val) (k : key) : option val := lookup k (own_entries v).

(** The element in slot [j] of an array, unless the slot is a hole or
    past the end. *)
Definition slot_at (items : list (option val)) (j : nat) : option val :=
  match nth_error items j with
  | Some (Some v) => Some v
  | _ => None
  end.

(** The named properties of an array under construction are never index
    properties: an index assigned to an array goes to its slots. *)
Definition store_ok (st : store) : Prop :=
  match st with
  | SArr _ named => forall j, lookup (KIdx j) named = None
  | SObj _ => True
  end.

(** A string or [undefined]: what an expander stores under a key. *)
Definition is_plain (v : val) : bool :=
  match v with
  | VStr _ | VUndef => true
  | _ => false
  end.

(** The string keys that some member of the builder can write when it is
    called with one string argument. *)
Definition expansion_names : list string :=
  [ "Top"; "Right"; "Bottom"; "Left";
    "TopLeft"; "TopRight"; "BottomRight"; "BottomLeft";
    "marginTop"; "marginRight"; "marginBottom"; "marginLeft";
    "paddingTop"; "paddingRight"; "paddingBottom"; "paddingLeft";
    "borderTopLeftRadius"; "borderTopRightRadius";
    "borderBottomRightRadius"; "borderBottomLeftRadius";
    "borderTopStyle"; "borderRightStyle"; "borderBottomStyle"; "borderLeftStyle";
    "borderTopColor"; "borderRightColor"; "borderBottomColor"; "borderLeftColor";
    "borderTopWidth"; "borderRightWidth"; "borderBottomWidth"; "borderLeftWidth";
    "borderundefinedWidth"; "borderundefinedStyle"; "borderundefinedColor" ].

Definition expansion_key (k : key) : bool :=
  match k with
  | KIdx _ => true
  | KStr s => existsb (String.eqb s) expansion_names
  end.

Definition expansion_entry (kv : key * val) : bool :=
  expansion_key (fst kv) && is_plain (snd kv).

Fixpoint traverse {A B : Type} (f : A -> outcome B) (l : list A) : outcome (list B) :=
  match l with
  | [] => Ok []
  | x :: rest => y <- f x ;; ys <- traverse f rest ;; Ok (y :: ys)
  end.

(** The object [build] starts from: an array when the input has a
    length, a plain object otherwise. *)
Definition fresh_store (has_length : bool) : store :=
  if has_length then SArr [] [] else SObj [].

(** What the loop body of [build] stores for a value found under a key
    that names no member of the builder: primitives are copied, a callable
    is wrapped, an array is mapped through [build], a mapping is built. *)
Definition stored (value : val) : outcome val :=
  match value with
  | VStr _ | VUndef | VBool _ | VNum _ => Ok value
  | VFun c => Ok (VFun (Wrapped c))
  | VNull | VArr _ _ | VObj _ =>
      d <- length_defined value ;;
      if d then call_map build value else build value
  end.

Definition is_mapping (v : val) : Prop := exists props, v = VObj props.

(** The eleven shorthand properties of the specification. *)
Definition shorthands : list string :=
  [ "margin"; "padding"; "borderRadius"; "borderStyle"; "borderColor";
    "borderWidth"; "borderLeft"; "borderRight"; "borderTop"; "borderBottom";
    "border" ].

(** Invocation with the host calls it performs written down: a wrapper
    performs the calls of the callable it wraps, [build] performs none. *)
Fixpoint call_traced (env : nat -> list val -> outcome val) (c : closure)
         (args : list val) : outcome val * list (nat * list val) :=
  match c with
  | Host id => (env id args, [(id, args)])
  | Wrapped c' =>
      let (r, log) := call_traced env c' args in
      (x <- r ;; build x, log)
  end.

(** ** Vocabulary of idempotence *)

(** The place of [k1] before [k2] in an enumeration of own properties:
    index keys ascending, then string keys, no key twice. *)
Definition before (k1 k2 : key) : Prop :=
  match k1, k2 with
  | KIdx i, KIdx j => i < j
  | KIdx _, KStr _ => True
  | KStr _, KIdx _ => False
  | KStr s, KStr t => s <> t
  end.

(** A property list in enumeration order (every object of the language
    lists its own properties this way). *)
Inductive canon : props_t -> Prop :=
| canon_nil : canon []
| canon_cons (k : key) (x : val) (rest : props_t) :
    Forall (before k) (keys rest) -> canon rest -> canon ((k, x) :: rest).

(** An array without a hole at its end. *)
Fixpoint ends_present (items : list (option val)) : bool :=
  match items with
  | [] => true
  | [x] => match x with Some _ => true | None => false end
  | _ :: rest => ends_present rest
  end.

(** Inputs on which a second [build] is studied: no mapping with a
    defined [length] or an own [__proto__] key, and no array with named
    properties, at any depth. *)
Inductive tidy : val -> Prop :=
| tidy_undef : tidy VUndef
| tidy_null : tidy VNull
| tidy_bool (b : bool) : tidy (VBool b)
| tidy_num (z : Z) : tidy (VNum z)
| tidy_str (s : string) : tidy (VStr s)
| tidy_fun (c : closure) : tidy (VFun c)
| tidy_arr (items : list (option val)) :
    (forall y, In (Some y) items -> tidy y) -> tidy (VArr items [])
| tidy_obj (props : props_t) :
    lookup (KStr "__proto__") props = None ->
    (forall x, In (KStr "length", x) props -> x = VUndef) ->
    (forall k x, In (k, x) props -> tidy x) ->
    tidy (VObj props).

(** Expanded values: what [build] returns on tidy inputs.  [kept k x]
    says that [x] may stand under the key [k] of an expanded mapping or
    array: a string only under a key that names no member of the
    builder. *)
Inductive built : val -> Prop :=
| built_arr (items : list (option val)) :
    ends_present items = true ->
    (forall x, In (Some x) items -> kept (KIdx 0) x) ->
    built (VArr items [])
| built_obj (props : props_t) :
    canon props ->
    lookup (KStr "__proto__") props = None ->
    (forall x, In (KStr "length", x) props -> x = VUndef) ->
    (forall k x, In (k, x) props -> kept k x) ->
    built (VObj props)
with kept : key -> val -> Prop :=
| kept_str (k : key) (s : string) : member k = None -> kept k (VStr s)
| kept_undef (k : key) : kept k VUndef
| kept_bool (k : key) (b : bool) : kept k (VBool b)
| kept_num (k : key) (z : Z) : kept k (VNum z)
| kept_fun (k : key) (c : closure) : kept k (VFun c)
| kept_obj (k : key) (props : props_t) : built (VObj props) -> kept k (VObj props)
| kept_arr (k : key) (items : list (option val)) :
    (forall y, In (Some y) items -> built y) -> kept k (VArr items []).

(** Every callable wrapped once more. *)
Fixpoint rewrap (v : val) : val :=
  match v with
  | VFun c => VFun (Wrapped c)
  | VArr items named =>
      VArr (map (fun o => match o with Some x => Some (rewrap x) | None => None end) items)
           (map (fun kv => match kv with (k, x) => (k, rewrap x) end) named)
  | VObj props =>
      VObj (map (fun kv => match kv with (k, x) => (k, rewrap x) end) props)
  | VUndef | VNull | VBool _ | VNum _ | VStr _ => v
  end.

(** No callable at any depth. *)
Fixpoint callable_free (v : val) : bool :=
  match v with
  | VFun _ => false
  | VArr items named =>
      forallb (fun o => match o with Some x => callable_free x | None => true end) items
      && forallb (fun kv => match kv with (_, x) => callable_free x end) named
  | VObj props =>
      forallb (fun kv => match kv with (_, x) => callable_free x end) props
  | VUndef | VNull | VBool _ | VNum _ | VStr _ => true
  end.

Definition rewrap_items (items : list (option val)) : list (option val) :=
  map (fun o => match o with Some x => Some (rewrap x) | None => None end) items.

Definition rewrap_props (props : props_t) : props_t :=
  map (fun kv => match kv with (k, x) => (k, rewrap x) end) props.

(** ** Vocabulary of the further properties *)

(** The four-sided mapping with the given prefix and suffix. *)
Definition box (prefix suffix t r b l : string) : val :=
  VObj [ (KStr (prefix ++ "Top" ++ suffix), VStr t);
         (KStr (prefix ++ "Right" ++ suffix), VStr r);
         (KStr (prefix ++ "Bottom" ++ suffix), VStr b);
         (KStr (prefix ++ "Left" ++ suffix), VStr l) ].

(** The property a border-side token gives: none when the token is
    missing or empty. *)
Definition present (k : string) (tok : option string) : props_t :=
  match tok with
  | Some t => if String.eqb t "" then [] else [(KStr k, VStr t)]
  | None => []
  end.

(** A [null] somewhere in a value, reached through the values of mappings
    and the elements of arrays. *)
Inductive holds_null : val -> Prop :=
| null_here : holds_null VNull
| null_in_mapping (props : props_t) (k : key) (x : val) :
    In (k, x) props -> holds_null x -> holds_null (VObj props)
| null_in_array (items : list (option val)) (named : props_t) (x : val) :
    In (Some x) items -> holds_null x -> holds_null (VArr items named).

(** What the loop stores for one property that is not dispatched, with
    its key. *)
Definition entry_stored (kv : key * val) : outcome (key * val) :=
  y <- stored (snd kv) ;; Ok (fst kv, y).

(** ** Vocabulary of the entries of a mapping *)

(** The eleven shorthand properties with their expanders. *)
Definition expanders : list (string * method) :=
  [ ("margin", fun v => Ok (margin v));
    ("padding", fun v => Ok (padding v));
    ("borderRadius", borderRadius);
    ("borderStyle", fun v => Ok (borderStyle v));
    ("borderColor", fun v => Ok (borderColor v));
    ("borderWidth", fun v => Ok (borderWidth v));
    ("borderLeft", fun v => Ok (borderLeft v));
    ("borderRight", fun v => Ok (borderRight v));
    ("borderTop", fun v => Ok (borderTop v));
    ("borderBottom", fun v => Ok (borderBottom v));
    ("border", border) ].

(** The keys that one round of the loop assigns for the property [k]
    holding [x]: the keys of what the member returns when [x] is a string
    and [k] names a member, the key [k] itself otherwise. *)
Definition written (k : key) (x : val) : list key :=
  match x with
  | VStr s =>
      match member k with
      | Some m =>
          match m s with
          | Ok r => keys (own_entries r)
          | _ => []
          end
      | None => [k]
      end
  | _ => [k]
  end.

(** Some property of [post] assigns the key [n]. *)
Definition overwrites (n : key) (post : props_t) : bool :=
  existsb (fun kv => mem_key n (written (fst kv) (snd kv))) post.

(** No value that has a length owns a callable [map]. *)
Definition native_maps (styles : val) : Prop :=
  forall k x, In (k, x) (own_entries styles) ->
    length_defined x = Ok true -> find_map x <> UserMap.

(** * Properties *)

(** ** Strings *)

Lemma split_nonempty (sep : ascii) (s : string) :
  exists tok rest, split sep s = tok :: rest.
Proof.
  induction s as [|c s IH]; simpl.
  - eauto.
  - destruct (Ascii.eqb c sep); [eauto|].
    destruct IH as (tok & rest & ->). eauto.
Qed.

Lemma join_cons (sep : ascii) (a b : string) (l : list string) :
  join sep (a :: b :: l) = (a ++ String sep (join sep (b :: l)))%string.
Proof. reflexivity. Qed.

(** Joining the tokens with the separator gives the string back. *)
Lemma join_split (sep : ascii) (s : string) : join sep (split sep s) = s.
Proof.
  induction s as [|c s IH]; [reflexivity|].
  cbn [split].
  destruct (split_nonempty sep s) as (tok & rest & E). rewrite E in *.
  destruct (Ascii.eqb_spec c sep) as [->|Hne].
  - rewrite join_cons, IH. reflexivity.
  - destruct rest as [|tok' rest].
    + cbn in *. now rewrite IH.
    + rewrite join_cons. rewrite join_cons in IH. rewrite <- IH. reflexivity.
Qed.

(** No token contains the separator. *)
Lemma split_tokens_clean (sep : ascii) (s : string) :
  Forall (fun tok => occurs sep tok = false) (split sep s).
Proof.
  induction s as [|c s IH]; simpl.
  - repeat constructor.
  - destruct (Ascii.eqb c sep) eqn:E.
    + constructor; [reflexivity|exact IH].
    + destruct (split sep s) as [|tok toks]; simpl.
      * repeat constructor. simpl. now rewrite E.
      * inversion IH; subst. constructor; [simpl; now rewrite E|assumption].
Qed.

Lemma split_clean (sep : ascii) (s : string) :
  occurs sep s = false -> split sep s = [s].
Proof.
  induction s as [|c s IH]; simpl; [reflexivity|].
  destruct (Ascii.eqb c sep); simpl; [discriminate|].
  intros H. now rewrite (IH H).
Qed.

Lemma split_occurs (sep : ascii) (s : string) :
  occurs sep s = true -> exists h v rest, split sep s = h :: v :: rest.
Proof.
  induction s as [|c s IH]; simpl; [discriminate|].
  destruct (Ascii.eqb c sep); simpl.
  - intros _. destruct (split_nonempty sep s) as (tok & rest & ->). eauto.
  - intros H. destruct (IH H) as (h & v & rest & ->). eauto.
Qed.

Lemma prefix_app (u s : string) :
  String.prefix u s = true <-> exists q, s = (u ++ q)%string.
Proof.
  revert s. induction u as [|c u IH]; intros s.
  - destruct s; simpl; (split; [eauto|reflexivity]).
  - destruct s as [|d s]; simpl.
    + split; [discriminate|]. intros (q & H). discriminate.
    + destruct (ascii_dec c d) as [->|Hne].
      * rewrite IH. split; intros (q & H); exists q; [now rewrite H|now inversion H].
      * split; [discriminate|]. intros (q & H). congruence.
Qed.

Lemma indexOf_range (s u : string) : (-1 <= indexOf s u)%Z.
Proof.
  induction s as [|c s IH]; cbn [indexOf].
  - destruct (String.prefix u ""); lia.
  - destruct (String.prefix u (String c s)); [lia|].
    destruct (indexOf s u <? 0)%Z eqn:E; lia.
Qed.

(** [indexOf] finds [u] exactly when [u] occurs somewhere in [s]. *)
Lemma indexOf_found (s u : string) :
  (indexOf s u >? -1)%Z = true <-> exists p q, s = (p ++ u ++ q)%string.
Proof.
  induction s as [|c s IH].
  - cbn [indexOf]. destruct (String.prefix u "") eqn:E.
    + split; [intros _|reflexivity].
      apply prefix_app in E. destruct E as (q & E). exists ""%string, q. exact E.
    + split; [discriminate|]. intros (p & q & H).
      destruct p; simpl in H.
      * assert (String.prefix u "" = true) by (apply prefix_app; eauto). congruence.
      * discriminate.
  - cbn [indexOf]. destruct (String.prefix u (String c s)) eqn:E.
    + split; [intros _|reflexivity].
      apply prefix_app in E. destruct E as (q & E). exists ""%string, q. exact E.
    + pose proof (indexOf_range s u) as R.
      destruct (indexOf s u <? 0)%Z eqn:L.
      * split; [discriminate|]. intros (p & q & H).
        destruct p as [|d p]; simpl in H.
        -- assert (String.prefix u (String c s) = true) by (apply prefix_app; eauto).
           congruence.
        -- inversion H; subst.
           assert ((indexOf (p ++ u ++ q) u >? -1)%Z = true) as F by (apply IH; eauto).
           apply Z.ltb_lt in L. apply Z.gtb_lt in F. lia.
      * split.
        -- intros _. apply Z.ltb_ge in L.
           assert ((indexOf s u >? -1)%Z = true) as F by (apply Z.gtb_lt; lia).
           apply IH in F. destruct F as (p & q & ->).
           exists (String c p), q. reflexivity.
        -- intros _. apply Z.ltb_ge in L. apply Z.gtb_lt. lia.
Qed.

Lemma prefix_char (c d : ascii) (s : string) :
  String.prefix (String c "") (String d s) = Ascii.eqb d c.
Proof.
  simpl. destruct (ascii_dec c d) as [->|Hne].
  - rewrite Ascii.eqb_refl. now destruct s.
  - symmetry. apply Ascii.eqb_neq. congruence.
Qed.

Lemma indexOf_char (c : ascii) (s : string) :
  (indexOf s (String c "") >? -1)%Z = occurs c s.
Proof.
  induction s as [|d s IH]; [reflexivity|].
  cbn [indexOf occurs]. rewrite prefix_char.
  destruct (Ascii.eqb d c); [reflexivity|]. cbn [orb].
  pose proof (indexOf_range s (String c "")) as R.
  rewrite <- IH.
  destruct (indexOf s (String c "") <? 0)%Z eqn:L.
  - apply Z.ltb_lt in L.
    replace (indexOf s (String c "")) with (-1)%Z by lia. reflexivity.
  - apply Z.ltb_ge in L.
    transitivity true; [|symmetry]; apply Z.gtb_lt; lia.
Qed.

Lemma array_indexOf_In (arr : list string) (x : string) :
  (array_indexOf arr x >? -1)%Z = true <-> In x arr.
Proof.
  assert (forall l, (-1 <= array_indexOf l x)%Z) as R.
  { induction l as [|y l IH]; simpl; [lia|].
    destruct (String.eqb y x); [lia|].
    destruct (array_indexOf l x <? 0)%Z; lia. }
  induction arr as [|y arr IH]; simpl.
  - split; [discriminate|tauto].
  - destruct (String.eqb_spec y x) as [->|Hne].
    + split; [auto|reflexivity].
    + specialize (R arr).
      destruct (array_indexOf arr x <? 0)%Z eqn:L.
      * split; [discriminate|]. intros [H|H]; [contradiction|].
        apply IH in H. apply Z.ltb_lt in L. apply Z.gtb_lt in H. lia.
      * apply Z.ltb_ge in L. split.
        -- intros _. right. apply IH. apply Z.gtb_lt. lia.
        -- intros _. apply Z.gtb_lt. lia.
Qed.

(** ** The four-slot exploder *)

(** C1. For every shorthand string, [_explodeToFour] splits it on spaces
    (there is always at least one token) and returns [v,v,v,v] for one
    token, [a,b,a,b] for two, [a,b,c,b] for three, the four tokens in
    order for four, and the token array unchanged for more than four.  The
    function is total: no input makes it throw. *)
Theorem explodeToFour_spec (value : string) :
  (exists tok rest, split " " value = tok :: rest) /\
  join " " (split " " value) = value /\
  (forall v, split " " value = [v] ->
     _explodeToFour value = [VStr v; VStr v; VStr v; VStr v]) /\
  (forall a b, split " " value = [a; b] ->
     _explodeToFour value = [VStr a; VStr b; VStr a; VStr b]) /\
  (forall a b c, split " " value = [a; b; c] ->
     _explodeToFour value = [VStr a; VStr b; VStr c; VStr b]) /\
  (forall a b c d, split " " value = [a; b; c; d] ->
     _explodeToFour value = [VStr a; VStr b; VStr c; VStr d]) /\
  (4 < List.length (split " " value) ->
     _explodeToFour value = map VStr (split " " value)).
Proof.
  split; [apply split_nonempty|].
  split; [apply join_split|].
  unfold _explodeToFour.
  repeat split; intros; try (rewrite H; reflexivity).
  destruct (split " " value) as [|a [|b [|c [|d [|e l]]]]]; simpl in H; try lia.
  reflexivity.
Qed.

Lemma is_string_map (l : list string) : Forall is_string (map VStr l).
Proof. induction l; constructor; unfold is_string; eauto. Qed.

(** Whatever the input, the first four slots exist and hold strings. *)
Lemma explodeToFour_slots (value : string) :
  Forall is_string (_explodeToFour value) /\
  exists a b c d rest,
    _explodeToFour value = VStr a :: VStr b :: VStr c :: VStr d :: rest.
Proof.
  unfold _explodeToFour.
  destruct (split_nonempty " " value) as (t0 & rest0 & E). rewrite E.
  destruct rest0 as [|t1 [|t2 [|t3 rest]]]; cbn -[map].
  - split; [apply (is_string_map [t0; t0; t0; t0])|]. cbn. eauto 8.
  - split; [apply (is_string_map [t0; t1; t0; t1])|]. cbn. eauto 8.
  - split; [apply (is_string_map [t0; t1; t2; t1])|]. cbn. eauto 8.
  - split; [apply is_string_map|]. cbn. eauto 8.
Qed.

(** ** Keys and own properties *)

Lemma key_eqb_spec (a b : key) : reflect (a = b) (key_eqb a b).
Proof.
  destruct a as [i|s], b as [j|t]; simpl.
  - destruct (Nat.eqb_spec i j); constructor; congruence.
  - constructor; discriminate.
  - constructor; discriminate.
  - destruct (String.eqb_spec s t); constructor; congruence.
Qed.

Lemma key_eqb_refl (k : key) : key_eqb k k = true.
Proof. destruct (key_eqb_spec k k); congruence. Qed.

Lemma key_eqb_neq (a b : key) : a <> b -> key_eqb a b = false.
Proof. destruct (key_eqb_spec a b); congruence. Qed.

Lemma eqb_app_l (p a b : string) :
  String.eqb (p ++ a) (p ++ b) = String.eqb a b.
Proof.
  induction p as [|c p IH]; simpl; [reflexivity|].
  now rewrite Ascii.eqb_refl.
Qed.

Lemma lookup_none_keys (k : key) (props : props_t) :
  lookup k props = None <-> ~ In k (keys props).
Proof.
  induction props as [|[k' v] props IH]; simpl.
  - tauto.
  - destruct (key_eqb_spec k k') as [->|Hne].
    + split; [discriminate|]. intros H. exfalso. auto.
    + rewrite IH. split; [intros H [E|E]; [congruence|auto]|tauto].
Qed.

Lemma lookup_app (k : key) (a b : props_t) :
  lookup k (a ++ b) = match lookup k a with Some v => Some v | None => lookup k b end.
Proof.
  induction a as [|[k' v] a IH]; simpl; [reflexivity|].
  destruct (key_eqb k k'); [reflexivity|exact IH].
Qed.

Lemma prop_set_fresh (props : props_t) (name : string) (v : val) :
  lookup (KStr name) props = None ->
  prop_set props (KStr name) v = props ++ [(KStr name, v)].
Proof. unfold prop_set, has_key. now intros ->. Qed.

(** ** The border-side expander *)

Ltac side_keys :=
  unfold prop_set, has_key; cbn [lookup replace key_eqb app String.append];
  repeat (rewrite ?String.eqb_refl, ?Ascii.eqb_refl, ?eqb_app_l;
          cbn [lookup replace key_eqb app String.append String.eqb Ascii.eqb
               Bool.eqb]).

(** C3. For every side name: a value that is one of the ten border-style
    keywords gives Width "initial", Style the keyword, Color "initial";
    a single-token value that is not a keyword gives Width the token and
    Style and Color "initial" (the second assignment of Width in the
    one-token branch changes nothing). *)
Theorem borderSide_spec (value side : string) :
  (In value _borderStyles ->
   borderSide value (Some side) =
     VObj [ (KStr ("border" ++ side ++ "Width"), VStr "initial");
            (KStr ("border" ++ side ++ "Style"), VStr value);
            (KStr ("border" ++ side ++ "Color"), VStr "initial") ]) /\
  (~ In value _borderStyles ->
   forall tok, split " " value = [tok] ->
   borderSide value (Some side) =
     VObj [ (KStr ("border" ++ side ++ "Width"), VStr tok);
            (KStr ("border" ++ side ++ "Style"), VStr "initial");
            (KStr ("border" ++ side ++ "Color"), VStr "initial") ]).
Proof.
  split.
  - intros H. apply array_indexOf_In in H.
    unfold borderSide. rewrite H. cbn [interpolate]. side_keys. reflexivity.
  - intros H tok E.
    assert ((array_indexOf _borderStyles value >? -1)%Z = false) as F.
    { destruct (array_indexOf _borderStyles value >? -1)%Z eqn:G; [|reflexivity].
      apply array_indexOf_In in G. contradiction. }
    unfold borderSide. rewrite F, E. cbn [interpolate List.length Nat.eqb elem nth_error truthy].
    destruct (negb (tok =? "")); side_keys; reflexivity.
Qed.

Example borderSide_solid_Top :
  borderSide "solid" (Some "Top") =
    VObj [ (KStr "borderTopWidth", VStr "initial");
           (KStr "borderTopStyle", VStr "solid");
           (KStr "borderTopColor", VStr "initial") ].
Proof. reflexivity. Qed.

Example borderSide_1px_Top :
  borderSide "1px" (Some "Top") =
    VObj [ (KStr "borderTopWidth", VStr "1px");
           (KStr "borderTopStyle", VStr "initial");
           (KStr "borderTopColor", VStr "initial") ].
Proof. reflexivity. Qed.

Example borderSide_full_Left :
  borderSide "1px solid red" (Some "Left") =
    VObj [ (KStr "borderLeftWidth", VStr "1px");
           (KStr "borderLeftStyle", VStr "solid");
           (KStr "borderLeftColor", VStr "red") ].
Proof. reflexivity. Qed.

Lemma mem_key_In (k : key) (l : list key) : mem_key k l = true <-> In k l.
Proof.
  induction l as [|k' l IH]; simpl.
  - split; [discriminate|tauto].
  - rewrite orb_true_iff, IH.
    destruct (key_eqb_spec k k'); split; intuition congruence.
Qed.

Lemma distinct_NoDup (l : list key) : distinct l = true -> NoDup l.
Proof.
  induction l as [|k l IH]; simpl; intros H; constructor.
  - apply andb_prop in H. destruct H as [H _].
    intros I. apply mem_key_In in I. rewrite I in H. discriminate.
  - apply IH. apply andb_prop in H. tauto.
Qed.

(** ** The composite border expander *)

(** C4. [border(value)] is the merge of the four [borderSide] results for
    Left, Right, Top and Bottom; their keys are pairwise different, so the
    merge overwrites nothing and is their concatenation.  On the example
    of the specification, [build] replaces [border] by its twelve longhand
    keys and leaves [color] as it is. *)
Theorem border_spec (value : string) :
  let left := own_entries (borderSide value (Some "Left")) in
  let right := own_entries (borderSide value (Some "Right")) in
  let top := own_entries (borderSide value (Some "Top")) in
  let bottom := own_entries (borderSide value (Some "Bottom")) in
  border value = Ok (VObj (left ++ right ++ top ++ bottom)) /\
  NoDup (keys (left ++ right ++ top ++ bottom)) /\
  build (VObj [(KStr "border", VStr "1px solid red"); (KStr "color", VStr "blue")]) =
    Ok (VObj [ (KStr "borderLeftWidth", VStr "1px");
               (KStr "borderLeftStyle", VStr "solid");
               (KStr "borderLeftColor", VStr "red");
               (KStr "borderRightWidth", VStr "1px");
               (KStr "borderRightStyle", VStr "solid");
               (KStr "borderRightColor", VStr "red");
               (KStr "borderTopWidth", VStr "1px");
               (KStr "borderTopStyle", VStr "solid");
               (KStr "borderTopColor", VStr "red");
               (KStr "borderBottomWidth", VStr "1px");
               (KStr "borderBottomStyle", VStr "solid");
               (KStr "borderBottomColor", VStr "red");
               (KStr "color", VStr "blue") ]).
Proof.
  cbv zeta. split; [|split; [|reflexivity]].
  - unfold border, borderSide.
    destruct (array_indexOf _borderStyles value >? -1)%Z; [reflexivity|].
    destruct (Nat.eqb (List.length (split " " value)) 1);
      destruct (truthy (elem (split " " value) 0));
      destruct (truthy (elem (split " " value) 1));
      destruct (truthy (elem (split " " value) 2)); reflexivity.
  - apply distinct_NoDup. unfold borderSide.
    destruct (array_indexOf _borderStyles value >? -1)%Z; [reflexivity|].
    destruct (Nat.eqb (List.length (split " " value)) 1);
      destruct (truthy (elem (split " " value) 0));
      destruct (truthy (elem (split " " value) 1));
      destruct (truthy (elem (split " " value) 2)); reflexivity.
Qed.

(** ** The border-radius expander *)

Lemma split_app_sep (sep : ascii) (h v : string) :
  occurs sep h = false ->
  split sep (h ++ String sep v) = h :: split sep v.
Proof.
  induction h as [|c h IH]; simpl.
  - intros _. now rewrite Ascii.eqb_refl.
  - destruct (Ascii.eqb c sep); simpl; [discriminate|].
    intros H. now rewrite (IH H).
Qed.

Lemma occurs_app (c : ascii) (a b : string) :
  occurs c (a ++ b) = occurs c a || occurs c b.
Proof.
  induction a as [|d a IH]; simpl; [reflexivity|].
  rewrite IH. now rewrite orb_assoc.
Qed.

Lemma pair_slots_total (partTwo : list val) :
  Forall is_string partTwo ->
  forall l i, Forall is_string l ->
  exists l',
    traverse_from i
      (fun v index =>
         a <- to_string v ;;
         b <- to_string (at_index partTwo index) ;;
         Ok (VStr (a ++ " " ++ b))) l = Ok l'.
Proof.
  intros H2 l. induction l as [|x l IH]; intros i Hl; cbn [traverse_from]; [eauto|].
  inversion Hl as [|? ? Hx Hl']; subst. destruct Hx as (s & ->).
  cbn [to_string bind].
  assert (exists t, to_string (at_index partTwo i) = Ok t) as (t & ->).
  { unfold at_index. destruct (nth_in_or_default i partTwo VUndef) as [I | ->].
    - rewrite Forall_forall in H2. destruct (H2 _ I) as (t & ->). simpl. eauto.
    - simpl. eauto. }
  cbn [bind]. destruct (IH (S i) Hl') as (l' & ->). cbn [bind]. eauto.
Qed.

Lemma borderRadius_slash (value : string) :
  occurs "/" value = true ->
  exists h v rest,
    split "/" value = h :: v :: rest /\
    borderRadius value =
      Ok (VObj [ (KStr "borderTopLeftRadius", VStr (slot h 0 ++ " " ++ slot v 0));
                 (KStr "borderTopRightRadius", VStr (slot h 1 ++ " " ++ slot v 1));
                 (KStr "borderBottomRightRadius", VStr (slot h 2 ++ " " ++ slot v 2));
                 (KStr "borderBottomLeftRadius", VStr (slot h 3 ++ " " ++ slot v 3)) ]).
Proof.
  intros H. destruct (split_occurs "/" value H) as (h & v & rest & E).
  exists h, v, rest. split; [exact E|].
  unfold borderRadius. rewrite E, indexOf_char, H.
  cbn [elem nth_error explode_of bind].
  destruct (explodeToFour_slots h) as (_ & a & b & c & d & r1 & E1).
  destruct (explodeToFour_slots v) as (S2 & a' & b' & c' & d' & r2 & E2).
  destruct (explodeToFour_slots h) as (S1 & _).
  unfold slot. rewrite E1, E2 in *.
  assert (Forall is_string r1) as R1.
  { do 4 (inversion S1 as [|? ? _ S1']; subst; clear S1; rename S1' into S1).
    exact S1. }
  set (p2 := VStr a' :: VStr b' :: VStr c' :: VStr d' :: r2) in *.
  destruct (pair_slots_total p2 S2 r1 4 R1) as (l' & T).
  cbn [traverse_from]. rewrite T. reflexivity.
Qed.

(** C5. A value of the form h/v is expanded half by half, and each of the
    four corner keys holds the slot of h and the slot of v for its index,
    separated by a space; a value without a slash uses its only axis; the
    example of the specification gives "4px 8px" at every corner. *)
Theorem borderRadius_spec :
  (forall h v, occurs "/" h = false -> occurs "/" v = false ->
     borderRadius (h ++ "/" ++ v) =
       Ok (VObj [ (KStr "borderTopLeftRadius", VStr (slot h 0 ++ " " ++ slot v 0));
                  (KStr "borderTopRightRadius", VStr (slot h 1 ++ " " ++ slot v 1));
                  (KStr "borderBottomRightRadius", VStr (slot h 2 ++ " " ++ slot v 2));
                  (KStr "borderBottomLeftRadius", VStr (slot h 3 ++ " " ++ slot v 3)) ])) /\
  (forall value, occurs "/" value = false ->
     borderRadius value =
       Ok (VObj [ (KStr "borderTopLeftRadius", VStr (slot value 0));
                  (KStr "borderTopRightRadius", VStr (slot value 1));
                  (KStr "borderBottomRightRadius", VStr (slot value 2));
                  (KStr "borderBottomLeftRadius", VStr (slot value 3)) ])) /\
  borderRadius "4px/8px" =
    Ok (VObj [ (KStr "borderTopLeftRadius", VStr "4px 8px");
               (KStr "borderTopRightRadius", VStr "4px 8px");
               (KStr "borderBottomRightRadius", VStr "4px 8px");
               (KStr "borderBottomLeftRadius", VStr "4px 8px") ]).
Proof.
  split; [|split; [|reflexivity]].
  - intros h v Hh Hv.
    assert (occurs "/" (h ++ "/" ++ v) = true) as O.
    { rewrite occurs_app. simpl. now rewrite orb_true_r. }
    destruct (borderRadius_slash _ O) as (h' & v' & rest & E & R).
    change (h ++ "/" ++ v)%string with (h ++ String "/" v)%string in E.
    rewrite (split_app_sep _ _ v Hh), (split_clean _ _ Hv) in E.
    inversion E; subst. exact R.
  - intros value H. unfold borderRadius.
    rewrite (split_clean _ _ H), indexOf_char, H.
    cbn [elem nth_error explode_of bind].
    destruct (explodeToFour_slots value) as (_ & a & b & c & d & r & E).
    unfold slot. rewrite E. reflexivity.
Qed.

(** ** The unit normalizer *)

Lemma endsWith_spec (v u : string) :
  endsWith v u = true <-> exists p, v = (p ++ u)%string.
Proof.
  induction v as [|c v IH]; cbn [endsWith].
  - destruct (String.eqb_spec "" u) as [<-|Hne].
    + split; [exists ""%string; reflexivity|reflexivity].
    + split; [discriminate|]. intros (p & H).
      destruct p; simpl in H; [congruence|discriminate].
  - destruct (String.eqb_spec (String c v) u) as [<-|Hne].
    + split; [exists ""%string; reflexivity|reflexivity].
    + rewrite IH. split.
      * intros (p & ->). exists (String c p). reflexivity.
      * intros (p & H). destruct p as [|d p]; simpl in H; [congruence|].
        inversion H; subst. eauto.
Qed.

Lemma ends_contains (v u : string) : endsWith v u = true -> contains v u.
Proof.
  intros H. apply endsWith_spec in H. destruct H as (p & ->).
  exists p, ""%string. f_equal.
  induction u; simpl; congruence.
Qed.

Lemma filter_nil_iff {A : Type} (p : A -> bool) (l : list A) :
  Nat.eqb (List.length (filter p l)) 0 = true <-> forall x, In x l -> p x = false.
Proof.
  induction l as [|a l IH]; simpl.
  - split; [intros _ x []|reflexivity].
  - destruct (p a) eqn:E; simpl.
    + split; [discriminate|]. intros H. specialize (H a (or_introl eq_refl)). congruence.
    + rewrite IH. split; [intros H x [<-|I]; auto|auto].
Qed.

(** What [applyPX] does to one token: it appends "px" exactly when none of
    the four unit names occurs anywhere in the token. *)
Lemma applyPX_token (v : string) :
  ((forall u, In u _units -> ~ contains v u) -> applyPX [v] = [(v ++ "px")%string]) /\
  ((exists u, In u _units /\ contains v u) -> applyPX [v] = [v]).
Proof.
  unfold applyPX. cbn [map].
  destruct (Nat.eqb (List.length (filter (fun u => (indexOf v u >? -1)%Z) _units)) 0) eqn:E.
  - split; [reflexivity|]. intros (u & I & C).
    rewrite filter_nil_iff in E. specialize (E u I).
    apply indexOf_found in C. congruence.
  - split; [|reflexivity]. intros H. exfalso.
    assert (Nat.eqb (List.length (filter (fun u => (indexOf v u >? -1)%Z) _units)) 0 = true);
      [|congruence].
    apply filter_nil_iff. intros u I.
    destruct (indexOf v u >? -1)%Z eqn:F; [|reflexivity].
    apply indexOf_found in F. destruct (H u I F).
Qed.

(** C10 (as the code has it). [applyPX] returns a sequence of equal
    length; a token in which none of px, em, pt, % occurs (anywhere, not
    only at its end) gets "px" appended; a token in which one of them
    occurs is returned unchanged, which covers every token that ends with
    a unit. *)
Theorem applyPX_spec (values : list string) :
  List.length (applyPX values) = List.length values /\
  forall i v, nth_error values i = Some v ->
    ((forall u, In u _units -> ~ contains v u) ->
       nth_error (applyPX values) i = Some (v ++ "px")%string) /\
    ((exists u, In u _units /\ contains v u) ->
       nth_error (applyPX values) i = Some v) /\
    ((exists u, In u _units /\ endsWith v u = true) ->
       nth_error (applyPX values) i = Some v).
Proof.
  split; [unfold applyPX; apply length_map|].
  intros i v H.
  assert (nth_error (applyPX values) i = nth_error (applyPX [v]) 0) as ->.
  { unfold applyPX. rewrite nth_error_map, H. reflexivity. }
  destruct (applyPX_token v) as [A B].
  split; [intros N; now rewrite (A N)|].
  split; [intros N; now rewrite (B N)|].
  intros (u & I & E). rewrite B; [reflexivity|].
  exists u. split; [exact I|now apply ends_contains].
Qed.

(** C10 as the specification words it (a token without a unit suffix
    gets "px" appended) fails: "empty" ends with no unit, yet it
    contains "em" and "pt" and is returned as it is. *)
Lemma applyPX_suffix_counterexample :
  ~ (forall values i v,
       nth_error values i = Some v ->
       existsb (endsWith v) _units = false ->
       nth_error (applyPX values) i = Some (v ++ "px")%string).
Proof.
  intros H. specialize (H ["empty"] 0 "empty" eq_refl eq_refl).
  discriminate H.
Qed.

(** ** Reading after writing *)

Lemma lookup_replace (k k' : key) (v : val) (props : props_t) :
  has_key k' props = true ->
  lookup k (replace k' v props) = if key_eqb k k' then Some v else lookup k props.
Proof.
  unfold has_key. induction props as [|[k0 x] props IH]; simpl; [discriminate|].
  destruct (key_eqb_spec k' k0) as [->|Hne]; simpl.
  - intros _. destruct (key_eqb k k0); reflexivity.
  - intros H. rewrite (IH H).
    destruct (key_eqb_spec k k0) as [->|Hne']; [|reflexivity].
    now rewrite (key_eqb_neq _ _ (not_eq_sym Hne)).
Qed.

Lemma lookup_insert_index (k : key) (i : nat) (v : val) (props : props_t) :
  lookup k (insert_index i v props) =
    if key_eqb k (KIdx i) then Some v else lookup k props.
Proof.
  induction props as [|[k0 x] props IH]; simpl.
  - destruct (key_eqb k (KIdx i)); reflexivity.
  - destruct k0 as [j|s].
    + destruct (Nat.ltb_spec j i) as [L|L]; simpl.
      * rewrite IH. destruct (key_eqb_spec k (KIdx i)) as [->|Hne]; [|reflexivity].
        simpl. destruct (Nat.eqb_spec i j); [lia|reflexivity].
      * destruct (key_eqb k (KIdx i)); reflexivity.
    + simpl. destruct (key_eqb k (KIdx i)); reflexivity.
Qed.

Lemma lookup_prop_set (k k' : key) (v : val) (props : props_t) :
  lookup k (prop_set props k' v) = if key_eqb k k' then Some v else lookup k props.
Proof.
  unfold prop_set. destruct (has_key k' props) eqn:E.
  - now apply lookup_replace.
  - destruct k' as [i|s].
    + apply lookup_insert_index.
    + rewrite lookup_app. simpl.
      unfold has_key in E.
      destruct (key_eqb_spec k (KStr s)) as [->|Hne].
      * destruct (lookup (KStr s) props); [discriminate|reflexivity].
      * destruct (lookup k props); reflexivity.
Qed.

Lemma lookup_items_str (s : string) (b : nat) (items : list (option val)) (named : props_t) :
  lookup (KStr s) (item_entries b items ++ named) = lookup (KStr s) named.
Proof.
  revert b. induction items as [|[x|] items IH]; intros b; simpl; auto.
Qed.

Lemma lookup_items_idx (j b : nat) (items : list (option val)) (named : props_t) :
  lookup (KIdx j) (item_entries b items ++ named) =
    match (if Nat.leb b j then slot_at items (j - b) else None) with
    | Some v => Some v
    | None => lookup (KIdx j) named
    end.
Proof.
  revert b. induction items as [|x items IH]; intros b.
  - simpl. unfold slot_at. destruct (Nat.leb b j); [|reflexivity].
    now destruct (j - b).
  - assert (lookup (KIdx j) (item_entries (S b) items ++ named) =
            match (if Nat.leb b j then
                     if Nat.eqb j b then None else slot_at (x :: items) (j - b)
                   else None) with
            | Some v => Some v
            | None => lookup (KIdx j) named
            end) as T.
    { rewrite IH. destruct (Nat.leb_spec (S b) j) as [L|L].
      - destruct (Nat.leb_spec b j); [|lia].
        destruct (Nat.eqb_spec j b); [lia|].
        replace (j - b) with (S (j - S b)) by lia. reflexivity.
      - destruct (Nat.leb_spec b j) as [L'|L']; [|reflexivity].
        destruct (Nat.eqb_spec j b); [reflexivity|lia]. }
    destruct x as [x|]; simpl.
    + destruct (Nat.eqb_spec j b) as [->|Hne].
      * rewrite Nat.leb_refl, Nat.sub_diag. reflexivity.
      * rewrite T. destruct (Nat.leb b j); reflexivity.
    + rewrite T. destruct (Nat.leb_spec b j) as [L|L]; [|reflexivity].
      destruct (Nat.eqb_spec j b) as [->|Hne]; [|reflexivity].
      rewrite Nat.sub_diag. reflexivity.
Qed.

Lemma slot_at_item_set (i j : nat) (v : val) (items : list (option val)) :
  slot_at (item_set i v items) j = if Nat.eqb j i then Some v else slot_at items j.
Proof.
  unfold slot_at. revert j items.
  induction i as [|i IH]; intros j items.
  - destruct items, j; simpl; try reflexivity. now destruct j.
  - destruct items as [|x items], j as [|j]; simpl; try reflexivity.
    + rewrite IH. destruct (Nat.eqb j i); [reflexivity|]. now destruct j.
    + apply IH.
Qed.

Lemma slot_at_resize (n j : nat) (items : list (option val)) :
  slot_at (resize n items) j = if Nat.ltb j n then slot_at items j else None.
Proof.
  unfold slot_at, resize.
  destruct (Nat.ltb_spec j n) as [L|L].
  - destruct (Nat.lt_ge_cases j (List.length items)) as [L'|L'].
    + rewrite nth_error_app1 by (rewrite length_firstn; lia).
      now rewrite nth_error_firstn, (proj2 (Nat.ltb_lt j n) L).
    + rewrite nth_error_app2 by (rewrite length_firstn; lia).
      rewrite (proj2 (nth_error_None items j) L').
      destruct (nth_error (repeat None (n - List.length items))
                  (j - List.length (firstn n items))) as [o|] eqn:E; [|reflexivity].
      apply nth_error_In, repeat_spec in E. now subst.
  - rewrite (proj2 (nth_error_None _ j)); [reflexivity|].
    rewrite length_app, length_firstn, repeat_length. lia.
Qed.

(** ** Assignments to the object under construction *)

Lemma bind_ok {A B : Type} (m : outcome A) (f : A -> outcome B) (b : B) :
  bind m f = Ok b -> exists a, m = Ok a /\ f a = Ok b.
Proof. destruct m; simpl; intros H; try discriminate. eauto. Qed.

Ltac bind_inv H :=
  let a := fresh "a" in
  let Ha := fresh "H" a in
  apply bind_ok in H; destruct H as (a & Ha & H).

Lemma own_SObj (props : props_t) (k : key) : own (VObj props) k = lookup k props.
Proof. reflexivity. Qed.

Lemma own_SArr_idx (items : list (option val)) (named : props_t) (j : nat) :
  own (VArr items named) (KIdx j) =
    match slot_at items j with
    | Some v => Some v
    | None => lookup (KIdx j) named
    end.
Proof.
  unfold own. cbn [own_entries]. rewrite lookup_items_idx. simpl.
  now rewrite Nat.sub_0_r.
Qed.

Lemma own_SArr_str (items : list (option val)) (named : props_t) (s : string) :
  own (VArr items named) (KStr s) = lookup (KStr s) named.
Proof. unfold own. cbn [own_entries]. apply lookup_items_str. Qed.

Lemma set_store_ok (st st' : store) (k : key) (v : val) :
  store_ok st -> set st k v = Ok st' -> store_ok st'.
Proof.
  intros W H. unfold set in H.
  destruct k as [i|name].
  - destruct st; inversion H; subst; simpl in *; auto.
  - destruct (String.eqb name "__proto__").
    + destruct v; inversion H; subst; auto.
    + destruct st as [items named|props]; [|inversion H; subst; exact I].
      destruct (String.eqb name "length").
      * bind_inv H. inversion H; subst. exact W.
      * inversion H; subst. simpl in *. intros j.
        rewrite lookup_prop_set. simpl. apply W.
Qed.

(** An assignment changes what is read under its own key only, except
    that shortening an array removes slots. *)
Lemma set_own_inv (st st' : store) (k' : key) (v : val) (k : key) (x : val) :
  store_ok st -> set st k' v = Ok st' ->
  own (finish st') k = Some x ->
  (k = k' /\ x = v) \/ own (finish st) k = Some x.
Proof.
  intros W H G. unfold set in H.
  assert (forall props, st = SObj props -> st' = SObj (prop_set props k' v) ->
          (k = k' /\ x = v) \/ own (finish st) k = Some x) as Obj.
  { intros props -> ->. simpl in G. rewrite own_SObj, lookup_prop_set in G.
    destruct (key_eqb_spec k k'); [left; split; congruence|right; exact G]. }
  destruct k' as [i|name].
  - destruct st as [items named|props]; inversion H; subst; [|eapply Obj; eauto].
    simpl in *. destruct k as [j|s].
    + rewrite own_SArr_idx in *. rewrite slot_at_item_set in G.
      destruct (Nat.eqb_spec j i) as [->|Hne]; [left; split; congruence|right; exact G].
    + right. rewrite own_SArr_str in *. exact G.
  - destruct (String.eqb name "__proto__").
    + right. destruct v; inversion H; subst; exact G.
    + destruct st as [items named|props]; [|inversion H; subst; eapply Obj; eauto].
      destruct (String.eqb name "length").
      * bind_inv H. inversion H; subst. right. simpl in *. destruct k as [j|s].
        -- rewrite own_SArr_idx in *. rewrite slot_at_resize, W in G. rewrite W.
           destruct (Nat.ltb j a); [exact G|discriminate].
        -- rewrite own_SArr_str in *. exact G.
      * inversion H; subst. simpl in *. destruct k as [j|s].
        -- right. rewrite own_SArr_idx in *. rewrite lookup_prop_set in G. exact G.
        -- rewrite own_SArr_str in *. rewrite lookup_prop_set in G.
           destruct (key_eqb_spec (KStr s) (KStr name));
             [left; split; congruence|right; exact G].
Qed.

Lemma set_all_store_ok (entries : props_t) (st st' : store) :
  store_ok st -> set_all st entries = Ok st' -> store_ok st'.
Proof.
  revert st. induction entries as [|[k v] entries IH]; intros st W H; simpl in H.
  - inversion H; subst; exact W.
  - bind_inv H. eapply IH; [|exact H]. eapply set_store_ok; eauto.
Qed.

Lemma set_all_own_inv (entries : props_t) (st st' : store) (k : key) (x : val) :
  store_ok st -> set_all st entries = Ok st' ->
  own (finish st') k = Some x ->
  In (k, x) entries \/ own (finish st) k = Some x.
Proof.
  revert st. induction entries as [|[k' v] entries IH]; intros st W H G; simpl in H.
  - inversion H; subst; auto.
  - bind_inv H.
    destruct (IH a (set_store_ok _ _ _ _ W Ha) H G) as [I|G']; [left; right; exact I|].
    destruct (set_own_inv _ _ _ _ _ _ W Ha G') as [[-> ->]|G'']; [left; left; reflexivity|auto].
Qed.

(** ** What the members write *)

Lemma is_plain_elem (l : list string) (i : nat) : is_plain (elem l i) = true.
Proof. unfold elem. now destruct (nth_error l i). Qed.

Lemma is_plain_at_index (X : list val) (i : nat) :
  Forall (fun x => is_plain x = true) X -> is_plain (at_index X i) = true.
Proof.
  intros H. unfold at_index.
  destruct (nth_in_or_default i X VUndef) as [I | ->]; [|reflexivity].
  rewrite Forall_forall in H. auto.
Qed.

Lemma plain_strings (X : list val) :
  Forall is_string X -> Forall (fun x => is_plain x = true) X.
Proof.
  intros H. eapply Forall_impl; [|exact H]. now intros x (s & ->).
Qed.

Lemma explode_plain (value : string) :
  Forall (fun x => is_plain x = true) (_explodeToFour value).
Proof. apply plain_strings, explodeToFour_slots. Qed.

Lemma chars_plain (s : string) :
  Forall (fun x => is_plain x = true) (map VStr (chars s)).
Proof. apply plain_strings, is_string_map. Qed.

Lemma dense_entries_ok (X : list val) :
  Forall (fun x => is_plain x = true) X ->
  forallb expansion_entry (own_entries (dense X)) = true.
Proof.
  intros H. unfold dense. cbn [own_entries]. rewrite app_nil_r.
  generalize 0 as b. induction H as [|x X Hx H IH]; intros b; simpl; [reflexivity|].
  unfold expansion_entry at 1. simpl. now rewrite Hx, IH.
Qed.

Lemma applyFour_entries_ok (X : list val) (p q : option string) :
  Forall (fun x => is_plain x = true) X ->
  In (p, q) [ (None, None); (Some "margin", None); (Some "padding", None);
              (Some "border", Some "Style"); (Some "border", Some "Color");
              (Some "border", Some "Width") ] ->
  forallb expansion_entry (own_entries (_applyFour X p q)) = true.
Proof.
  intros H I. simpl in I.
  repeat (destruct I as [I|I]; [inversion I; subst; clear I|]); try contradiction;
    cbn; unfold expansion_entry; cbn;
    now rewrite !(is_plain_at_index X _ H).
Qed.

Lemma applyFourCorner_entries_ok (X : list val) (p q : option string) :
  Forall (fun x => is_plain x = true) X ->
  In (p, q) [ (None, None); (Some "border", Some "Radius") ] ->
  forallb expansion_entry (own_entries (_applyFourCorner X p q)) = true.
Proof.
  intros H I. simpl in I.
  repeat (destruct I as [I|I]; [inversion I; subst; clear I|]); try contradiction;
    cbn; unfold expansion_entry; cbn;
    now rewrite !(is_plain_at_index X _ H).
Qed.

Lemma borderSide_entries_ok (value : string) (side : option string) :
  In side [None; Some "Left"; Some "Right"; Some "Top"; Some "Bottom"] ->
  forallb expansion_entry (own_entries (borderSide value side)) = true.
Proof.
  intros I. simpl in I.
  repeat (destruct I as [I|I]; [subst side|]); try contradiction;
    unfold borderSide;
    (destruct (array_indexOf _borderStyles value >? -1)%Z; [reflexivity|]);
    destruct (Nat.eqb (List.length (split " " value)) 1);
    destruct (truthy (elem (split " " value) 0));
    destruct (truthy (elem (split " " value) 1));
    destruct (truthy (elem (split " " value) 2));
    cbn; unfold expansion_entry; cbn; rewrite ?is_plain_elem; reflexivity.
Qed.

Lemma border_concat (value : string) :
  border value =
    Ok (VObj (own_entries (borderSide value (Some "Left")) ++
              own_entries (borderSide value (Some "Right")) ++
              own_entries (borderSide value (Some "Top")) ++
              own_entries (borderSide value (Some "Bottom")))).
Proof.
  unfold border, borderSide.
  destruct (array_indexOf _borderStyles value >? -1)%Z; [reflexivity|].
  destruct (Nat.eqb (List.length (split " " value)) 1);
    destruct (truthy (elem (split " " value) 0));
    destruct (truthy (elem (split " " value) 1));
    destruct (truthy (elem (split " " value) 2)); reflexivity.
Qed.

Lemma border_entries_ok (value : string) (r : val) :
  border value = Ok r -> forallb expansion_entry (own_entries r) = true.
Proof.
  rewrite border_concat.
  intros H. inversion H; subst. cbn [own_entries].
  rewrite !forallb_app.
  rewrite !borderSide_entries_ok by (simpl; tauto). reflexivity.
Qed.

Lemma borderRadius_plain (value : string) :
  occurs "/" value = false ->
  borderRadius value =
    Ok (VObj [ (KStr "borderTopLeftRadius", VStr (slot value 0));
               (KStr "borderTopRightRadius", VStr (slot value 1));
               (KStr "borderBottomRightRadius", VStr (slot value 2));
               (KStr "borderBottomLeftRadius", VStr (slot value 3)) ]).
Proof.
  intros H. unfold borderRadius.
  rewrite (split_clean _ _ H), indexOf_char, H.
  cbn [elem nth_error explode_of bind].
  destruct (explodeToFour_slots value) as (_ & a & b & c & d & r & E).
  unfold slot. rewrite E. reflexivity.
Qed.

Lemma borderRadius_entries_ok (value : string) (r : val) :
  borderRadius value = Ok r -> forallb expansion_entry (own_entries r) = true.
Proof.
  destruct (occurs "/" value) eqn:O.
  - destruct (borderRadius_slash value O) as (h & v & rest & _ & ->).
    intros H. inversion H; subst. reflexivity.
  - rewrite (borderRadius_plain value O).
    intros H. inversion H; subst. reflexivity.
Qed.

(** Every member called with a string either throws or returns something
    whose own properties are index keys or expansion keys holding strings
    (or [undefined]). *)
Lemma member_writes (k : key) (m : method) (s : string) (r : val) :
  member k = Some m -> m s = Ok r ->
  forallb expansion_entry (own_entries r) = true.
Proof.
  destruct k as [i|name]; [discriminate|].
  unfold member.
  cbn [StyleBuilder_prototype Object_prototype app find_method].
  repeat match goal with
         | |- (if String.eqb name ?n then _ else _) = _ -> _ =>
             destruct (String.eqb name n)
         end;
    intros M; inversion M; subst; clear M; intros R;
    try discriminate R;
    try (inversion R; subst; clear R);
    try reflexivity.
  - apply dense_entries_ok, explode_plain.
  - apply applyFour_entries_ok; [apply chars_plain|simpl; tauto].
  - apply applyFourCorner_entries_ok; [apply chars_plain|simpl; tauto].
  - apply applyFour_entries_ok; [apply explode_plain|simpl; tauto].
  - apply applyFour_entries_ok; [apply explode_plain|simpl; tauto].
  - eapply borderRadius_entries_ok; eauto.
  - apply applyFour_entries_ok; [apply explode_plain|simpl; tauto].
  - apply applyFour_entries_ok; [apply explode_plain|simpl; tauto].
  - apply applyFour_entries_ok; [apply explode_plain|simpl; tauto].
  - apply borderSide_entries_ok; simpl; tauto.
  - apply borderSide_entries_ok; simpl; tauto.
  - apply borderSide_entries_ok; simpl; tauto.
  - apply borderSide_entries_ok; simpl; tauto.
  - apply borderSide_entries_ok; simpl; tauto.
  - eapply border_entries_ok; eauto.
  - apply dense_entries_ok, chars_plain.
Qed.

(** No expansion key names a member of the builder, [length], [map] or
    [__proto__]. *)
Lemma expansion_key_free (k : key) :
  expansion_key k = true ->
  member k = None /\ k <> KStr "length" /\ k <> KStr "map" /\ k <> KStr "__proto__".
Proof.
  destruct k as [i|s]; cbn [expansion_key].
  - intros _. repeat split; (reflexivity || discriminate).
  - intros H. apply existsb_exists in H. destruct H as (n & I & E).
    apply String.eqb_eq in E. subst n. unfold expansion_names in I. simpl in I.
    repeat (destruct I as [<-|I]; [repeat split; (reflexivity || discriminate)|]).
    contradiction.
Qed.

(** ** The loop of build *)

Lemma visit_items_props (rec : val -> outcome val) (items : list (option val))
      (b : nat) (st : store) :
  visit_items rec b items st = visit_props rec (item_entries b items) st.
Proof.
  revert b st. induction items as [|[x|] items IH]; intros b st; simpl; auto.
  destruct (visit rec st (KIdx b) x); simpl; auto.
Qed.

Lemma visit_props_app (rec : val -> outcome val) (a b : props_t) (st : store) :
  visit_props rec (a ++ b) st = (t <- visit_props rec a st ;; visit_props rec b t).
Proof.
  revert st. induction a as [|[k x] a IH]; intros st; simpl; [reflexivity|].
  destruct (visit rec st k x); simpl; auto.
Qed.

Lemma item_set_end (items : list (option val)) (v : val) :
  item_set (List.length items) v items = items ++ [Some v].
Proof. induction items as [|x items IH]; simpl; [reflexivity|now rewrite IH]. Qed.

(** The loop body for a value that is not dispatched to a member. *)
Lemma visit_stored (st : store) (k : key) (value : val) :
  member k = None \/ (forall s, value <> VStr s) ->
  visit build st k value = (y <- stored value ;; set st k y).
Proof.
  intros H. destruct value; simpl; try reflexivity.
  - destruct H as [-> | H]; [reflexivity|]. now destruct (H s).
  - destruct (match lookup (KStr "length") props with
              | None | Some VUndef => Ok false
              | Some _ => Ok true
              end) as [[|]| |]; simpl; try reflexivity;
      destruct (call_map build (VObj props)); reflexivity.
Qed.

Lemma visit_index_stored (st : store) (i : nat) (value : val) :
  visit build st (KIdx i) value = (y <- stored value ;; set st (KIdx i) y).
Proof. apply visit_stored. now left. Qed.

(** The loop over a dense run of elements appended to an array. *)
Lemma visit_dense (l : list val) (items : list (option val)) :
  visit_props build (item_entries (List.length items) (map Some l)) (SArr items []) =
    (l' <- traverse stored l ;; Ok (SArr (items ++ map Some l') [])).
Proof.
  revert items. induction l as [|x l IH]; intros items; simpl.
  - now rewrite app_nil_r.
  - rewrite visit_index_stored.
    destruct (stored x) as [y| |]; simpl; try reflexivity.
    rewrite item_set_end.
    replace (S (List.length items)) with (List.length (items ++ [Some y]))
      by (rewrite length_app; simpl; lia).
    rewrite IH. destruct (traverse stored l) as [l'| |]; simpl; try reflexivity.
    now rewrite <- app_assoc.
Qed.

Lemma visit_dense_fresh (l : list val) :
  visit_props build (item_entries 0 (map Some l)) (SArr [] []) =
    (l' <- traverse stored l ;; Ok (SArr (map Some l') [])).
Proof. exact (visit_dense l []). Qed.

Lemma traverse_strings (cs : list string) :
  traverse stored (map VStr cs) = Ok (map VStr cs).
Proof. induction cs as [|c cs IH]; simpl; [reflexivity|now rewrite IH]. Qed.

(** [build] is one loop for every kind of input: the starting object
    depends on whether the input has a length, and the loop visits the
    own enumerable properties of the input. *)
Lemma build_unfold (styles : val) :
  build styles =
    (d <- length_defined styles ;;
     t <- visit_props build (own_entries styles) (fresh_store d) ;;
     Ok (finish t)).
Proof.
  destruct styles; try reflexivity.
  - cbn [build length_defined bind own_entries fresh_store].
    rewrite <- (map_map VStr Some).
    rewrite visit_dense_fresh, traverse_strings. reflexivity.
  - cbn [build length_defined bind own_entries fresh_store].
    rewrite visit_props_app, visit_items_props.
    destruct (visit_props build (item_entries 0 items) (SArr [] [])); reflexivity.
Qed.

(** ** The shape of the result *)

Lemma traverse_length {A B : Type} (f : A -> outcome B) (l : list A) (l' : list B) :
  traverse f l = Ok l' ->
  List.length l' = List.length l /\
  forall i x, nth_error l i = Some x ->
    exists y, nth_error l' i = Some y /\ f x = Ok y.
Proof.
  revert l'. induction l as [|a l IH]; intros l' H; simpl in H.
  - inversion H; subst. split; [reflexivity|]. intros [|i] x E; discriminate.
  - bind_inv H. bind_inv H. inversion H; subst.
    destruct (IH _ Ha1) as (L & N). split; [simpl; congruence|].
    intros [|i] x E; simpl in *.
    + inversion E; subst. eauto.
    + auto.
Qed.

Lemma map_build_dense (l : list val) :
  map_build build (map Some l) = (l' <- traverse build l ;; Ok (map Some l')).
Proof.
  induction l as [|x l IH]; simpl; [reflexivity|].
  destruct (build x); simpl; try reflexivity.
  rewrite IH. destruct (traverse build l); reflexivity.
Qed.

Lemma set_SObj (props : props_t) (k : key) (v : val) (st' : store) :
  set (SObj props) k v = Ok st' -> exists props', st' = SObj props'.
Proof.
  unfold set. destruct k as [i|name].
  - intros H. inversion H. eauto.
  - destruct (String.eqb name "__proto__").
    + destruct v; intros H; inversion H; eauto.
    + intros H. inversion H. eauto.
Qed.

Lemma set_all_SObj (entries : props_t) (props : props_t) (st' : store) :
  set_all (SObj props) entries = Ok st' -> exists props', st' = SObj props'.
Proof.
  revert props. induction entries as [|[k v] entries IH]; intros props H; simpl in H.
  - inversion H. eauto.
  - bind_inv H. destruct (set_SObj _ _ _ _ Ha) as (p & ->). eauto.
Qed.

Lemma visit_SObj (props : props_t) (k : key) (x : val) (st' : store) :
  visit build (SObj props) k x = Ok st' -> exists props', st' = SObj props'.
Proof.
  intros H. destruct x; simpl in H;
    try (eapply set_SObj; eassumption);
    try discriminate.
  - destruct (member k).
    + bind_inv H. eapply set_all_SObj; eassumption.
    + eapply set_SObj; eassumption.
  - bind_inv H. eapply set_SObj; eassumption.
  - bind_inv H. destruct a; bind_inv H; eapply set_SObj; eassumption.
Qed.

Lemma visit_props_SObj (entries : props_t) (props : props_t) (st' : store) :
  visit_props build entries (SObj props) = Ok st' -> exists props', st' = SObj props'.
Proof.
  revert props. induction entries as [|[k v] entries IH]; intros props H; simpl in H.
  - inversion H. eauto.
  - bind_inv H. destruct (visit_SObj _ _ _ _ Ha) as (p & ->). eauto.
Qed.

Lemma build_mapping (props : props_t) (out : val) :
  length_defined (VObj props) = Ok false ->
  build (VObj props) = Ok out -> is_mapping out.
Proof.
  intros D H. rewrite build_unfold, D in H.
  cbn [bind fresh_store] in H. bind_inv H. inversion H; subst.
  destruct (visit_props_SObj _ _ _ Ha) as (p & ->). now exists p.
Qed.

(** C6 (as the code has it). [build] applied to an ordered sequence
    returns, when no element makes it throw, a sequence of equal length
    whose element [i] is what the loop stores for element [i] of the
    input: a mapping is replaced by its [build], a sequence by the
    sequence of the [build]s of its members, a callable by its wrapper, and
    strings, numbers, booleans and [undefined] are copied.  [build] applied
    to a mapping whose [length] property is undefined returns a mapping. *)
Theorem build_shape :
  (forall l, build (dense l) = (l' <- traverse stored l ;; Ok (dense l'))) /\
  (forall l l', traverse stored l = Ok l' ->
     List.length l' = List.length l /\
     forall i x, nth_error l i = Some x ->
       exists y, nth_error l' i = Some y /\ stored x = Ok y) /\
  (forall props, length_defined (VObj props) = Ok false ->
     stored (VObj props) = build (VObj props)) /\
  (forall l, stored (dense l) = (l' <- traverse build l ;; Ok (dense l'))) /\
  (forall props out, length_defined (VObj props) = Ok false ->
     build (VObj props) = Ok out -> is_mapping out).
Proof.
  split; [|split; [|split; [|split]]].
  - intros l. unfold dense at 1. cbn [build].
    rewrite visit_items_props, visit_dense_fresh.
    destruct (traverse stored l); reflexivity.
  - intros l l'. apply traverse_length.
  - intros props H. unfold stored. now rewrite H.
  - intros l. unfold stored, dense. cbn [length_defined bind call_map find_map lookup].
    rewrite map_build_dense. destruct (traverse build l); reflexivity.
  - apply build_mapping.
Qed.

(** C6 as worded fails twice: a mapping with a [length] key comes
    back as an array, and a string element of a sequence is copied where
    [build] applied to it would give the array of its characters. *)
Lemma build_shape_counterexample :
  build (VObj [(KStr "length", VNum 1)]) = Ok (VArr [None] []) /\
  ~ is_mapping (VArr [None] []) /\
  build (dense [VStr "ab"]) = Ok (dense [VStr "ab"]) /\
  build (VStr "ab") = Ok (dense [VStr "a"; VStr "b"]).
Proof.
  repeat split. intros (props & H). discriminate H.
Qed.

(** ** Values that are neither strings nor objects *)

(** Numbers, booleans and [undefined] reach the last branch of the loop
    body and are assigned as they are. *)
Lemma visit_primitive (st : store) (k : key) (x : val) :
  (exists z, x = VNum z) \/ (exists b, x = VBool b) \/ x = VUndef ->
  visit build st k x = set st k x.
Proof. intros [(z & ->)|[(b & ->)| ->]]; reflexivity. Qed.

(** Under a key other than [__proto__], in a mapping without a [length],
    the assignment creates or overwrites exactly that key. *)
Lemma set_SObj_own (props : props_t) (k : key) (v : val) :
  k <> KStr "__proto__" ->
  exists props', set (SObj props) k v = Ok (SObj props') /\
                 lookup k props' = Some v.
Proof.
  intros H. exists (prop_set props k v). split.
  - unfold set. destruct k as [i|name]; [reflexivity|].
    destruct (String.eqb_spec name "__proto__"); [congruence|reflexivity].
  - now rewrite lookup_prop_set, key_eqb_refl.
Qed.

(** C7 (the code against the claim). A key that holds [null] is not
    copied: [typeof null] is "object", so the loop body reads
    [null.length] and throws a TypeError, whatever the key and whatever
    was built so far; a style mapping with one null entry makes [build]
    fail. *)
Theorem build_null_throws :
  (forall st k, visit build st k VNull = Throw TypeError) /\
  build (VObj [(KStr "color", VNull)]) = Throw TypeError /\
  build (VObj [(KStr "color", VStr "red"); (KStr "width", VNull)]) = Throw TypeError.
Proof. repeat split. Qed.

(** ** Where the properties of a result come from *)

Lemma build_result (styles out : val) :
  build styles = Ok out -> exists st, out = finish st.
Proof.
  rewrite build_unfold. intros H. bind_inv H. bind_inv H.
  inversion H; subst. eauto.
Qed.

Lemma stored_fun (x : val) (w : closure) :
  stored x = Ok (VFun w) -> exists f, x = VFun f /\ w = Wrapped f.
Proof.
  destruct x; cbn [stored]; intros H; try discriminate.
  - inversion H; subst. eauto.
  - cbn [length_defined bind] in H.
    unfold call_map in H. destruct (find_map (VArr items named)); try discriminate.
    bind_inv H. discriminate.
  - bind_inv H. destruct a.
    + unfold call_map in H. destruct (find_map (VObj props)); discriminate.
    + apply build_result in H. destruct H as ([|] & H); discriminate.
Qed.

Lemma visit_store_ok (st st' : store) (k : key) (x : val) :
  store_ok st -> visit build st k x = Ok st' -> store_ok st'.
Proof.
  intros W H.
  destruct x; simpl in H;
    try (eapply set_store_ok; eassumption); try discriminate.
  - destruct (member k).
    + bind_inv H. eapply set_all_store_ok; eassumption.
    + eapply set_store_ok; eassumption.
  - bind_inv H. eapply set_store_ok; eassumption.
  - bind_inv H. destruct a; bind_inv H; eapply set_store_ok; eassumption.
Qed.

(** A property of the object under construction after one round of the
    loop was there before, or is what the loop stores for the visited
    entry, or was written by the member the entry was dispatched to. *)
Lemma visit_provenance (st st' : store) (k : key) (x : val) (k0 : key) (y : val) :
  store_ok st -> visit build st k x = Ok st' ->
  own (finish st') k0 = Some y ->
  own (finish st) k0 = Some y \/
  (k0 = k /\ stored x = Ok y /\ (member k = None \/ forall s, x <> VStr s)) \/
  (exists s m r, x = VStr s /\ member k = Some m /\ m s = Ok r /\
                 In (k0, y) (own_entries r)).
Proof.
  intros W H G.
  assert (member k = None \/ (forall s, x <> VStr s) ->
          own (finish st) k0 = Some y \/
          (k0 = k /\ stored x = Ok y /\ (member k = None \/ forall s, x <> VStr s))) as Plain.
  { intros N. rewrite (visit_stored st k x N) in H. bind_inv H.
    destruct (set_own_inv _ _ _ _ _ _ W H G) as [[-> ->]|G']; auto. }
  destruct (member k) as [m|] eqn:M; [|destruct Plain; auto].
  destruct x; try (destruct Plain; [right; intros; discriminate|auto..]; fail).
  simpl in H. rewrite M in H. bind_inv H.
  destruct (set_all_own_inv _ _ _ _ _ W H G) as [I|G']; [|auto].
  right; right. exists s, m, a. auto.
Qed.

Lemma visit_props_provenance (entries : props_t) (st st' : store) (k0 : key) (y : val) :
  store_ok st -> visit_props build entries st = Ok st' ->
  own (finish st') k0 = Some y ->
  own (finish st) k0 = Some y \/
  (exists x, In (k0, x) entries /\ stored x = Ok y /\
             (member k0 = None \/ forall s, x <> VStr s)) \/
  (exists k s m r, In (k, VStr s) entries /\ member k = Some m /\ m s = Ok r /\
                   In (k0, y) (own_entries r)).
Proof.
  revert st. induction entries as [|[k x] entries IH]; intros st W H G; simpl in H.
  - inversion H; subst. auto.
  - bind_inv H.
    destruct (IH a (visit_store_ok _ _ _ _ W Ha) H G) as [G'|[(x' & I & S)|(k' & s & m & r & I & R)]].
    + destruct (visit_provenance _ _ _ _ _ _ W Ha G')
        as [G''|[(-> & S & N)|(s & m & r & -> & M & R & I)]].
      * auto.
      * right; left. exists x. simpl. auto.
      * right; right. exists k, s, m, r. simpl. auto.
    + right; left. exists x'. simpl. auto.
    + right; right. exists k', s, m, r. simpl. tauto.
Qed.

Lemma fresh_store_ok (d : bool) : store_ok (fresh_store d).
Proof. destruct d; simpl; auto. Qed.

Lemma fresh_store_empty (d : bool) (k : key) : own (finish (fresh_store d)) k = None.
Proof. now destruct d. Qed.

Lemma build_provenance (styles out : val) (k0 : key) (y : val) :
  build styles = Ok out -> own out k0 = Some y ->
  (exists x, In (k0, x) (own_entries styles) /\ stored x = Ok y /\
             (member k0 = None \/ forall s, x <> VStr s)) \/
  (exists k s m r, In (k, VStr s) (own_entries styles) /\ member k = Some m /\
                   m s = Ok r /\ In (k0, y) (own_entries r)).
Proof.
  rewrite build_unfold. intros H G. bind_inv H. bind_inv H. inversion H; subst.
  destruct (visit_props_provenance _ _ _ _ _ (fresh_store_ok a) Ha0 G) as [G'|G']; [|exact G'].
  rewrite fresh_store_empty in G'. discriminate.
Qed.

(** ** Callables *)

Lemma plain_not_fun (r : val) (k : key) (w : closure) :
  forallb expansion_entry (own_entries r) = true -> ~ In (k, VFun w) (own_entries r).
Proof.
  intros H I. rewrite forallb_forall in H. specialize (H _ I).
  unfold expansion_entry in H. simpl in H. now rewrite andb_false_r in H.
Qed.

Lemma call_traced_result (env : nat -> list val -> outcome val) (c : closure)
      (args : list val) :
  fst (call_traced env c args) = call env c args.
Proof.
  induction c as [id|c IH]; simpl; [reflexivity|].
  destruct (call_traced env c args) as [r log]. simpl in *. now rewrite IH.
Qed.

(** ** Strings under shorthand and other keys *)

Lemma lookup_In (k : key) (x : val) (props : props_t) :
  NoDup (keys props) -> In (k, x) props -> lookup k props = Some x.
Proof.
  induction props as [|[k' x'] props IH]; simpl; [tauto|].
  intros N [E|I].
  - inversion E; subst. now rewrite key_eqb_refl.
  - inversion N as [|? ? N1 N2]; subst.
    destruct (key_eqb_spec k k') as [->|Hne]; [|auto].
    exfalso. apply N1. change k' with (fst (k', x)). now apply in_map.
Qed.

Lemma In_unique (k : key) (x x' : val) (props : props_t) :
  NoDup (keys props) -> In (k, x) props -> In (k, x') props -> x = x'.
Proof.
  intros N I I'. apply (lookup_In _ _ _ N) in I. apply (lookup_In _ _ _ N) in I'.
  congruence.
Qed.

Lemma shorthand_member (name : string) :
  In name shorthands -> exists m, member (KStr name) = Some m.
Proof.
  unfold shorthands. simpl.
  intros H. repeat (destruct H as [<-|H]; [eexists; reflexivity|]). contradiction.
Qed.

(** C2 as worded fails for the keys that name a member without
    being a shorthand: [borderSide] is called with no side, [applyPX]
    with a string it cannot map over. *)
Lemma build_string_entries_counterexample :
  ~ In "borderSide" shorthands /\
  build (VObj [(KStr "borderSide", VStr "1px solid red")]) =
    Ok (VObj [ (KStr "borderundefinedWidth", VStr "1px");
               (KStr "borderundefinedStyle", VStr "solid");
               (KStr "borderundefinedColor", VStr "red") ]) /\
  ~ In "applyPX" shorthands /\
  build (VObj [(KStr "applyPX", VStr "5")]) = Throw TypeError.
Proof.
  repeat split; try reflexivity;
    unfold shorthands; simpl; intuition discriminate.
Qed.

(** ** Induction on values *)

Lemma val_nested_ind (P : val -> Prop) :
  P VUndef -> P VNull -> (forall b, P (VBool b)) -> (forall z, P (VNum z)) ->
  (forall s, P (VStr s)) -> (forall c, P (VFun c)) ->
  (forall items named,
     (forall x, In (Some x) items -> P x) ->
     (forall k x, In (k, x) named -> P x) -> P (VArr items named)) ->
  (forall props, (forall k x, In (k, x) props -> P x) -> P (VObj props)) ->
  forall v, P v.
Proof.
  intros HU HN HB HZ HS HF HA HO.
  fix IH 1. intros v.
  destruct v as [| | b | z | s | c | items named | props];
    [exact HU|exact HN|apply HB|apply HZ|apply HS|apply HF| |].
  - apply HA.
    + induction items as [|[y|] items IHi]; intros x I.
      * destruct I.
      * destruct I as [E|I]; [|exact (IHi x I)].
        injection E as E. rewrite <- E. apply IH.
      * destruct I as [E|I]; [discriminate E|exact (IHi x I)].
    + induction named as [|[k' x'] named IHp]; intros k x I.
      * destruct I.
      * destruct I as [E|I]; [|exact (IHp k x I)].
        injection E as _ E. rewrite <- E. apply IH.
  - apply HO.
    induction props as [|[k' x'] props IHp]; intros k x I.
    + destruct I.
    + destruct I as [E|I]; [|exact (IHp k x I)].
      injection E as _ E. rewrite <- E. apply IH.
Qed.

(** ** Enumeration order *)

Lemma before_irrefl (k : key) : ~ before k k.
Proof. destruct k; simpl; [lia|congruence]. Qed.

Lemma keys_app (a b : props_t) : keys (a ++ b) = keys a ++ keys b.
Proof. apply map_app. Qed.

Lemma keys_replace (k : key) (v : val) (props : props_t) :
  keys (replace k v props) = keys props.
Proof.
  induction props as [|[k' x] props IH]; simpl; [reflexivity|].
  destruct (key_eqb k k'); simpl; [reflexivity|now rewrite IH].
Qed.

Lemma canon_keys (l l' : props_t) : keys l = keys l' -> canon l -> canon l'.
Proof.
  intros E C. revert l' E.
  induction C as [|k x rest F C IH]; intros l' E.
  - destruct l'; [constructor|discriminate].
  - destruct l' as [|[k' x'] rest']; [discriminate|].
    simpl in E. injection E as -> E. constructor; [now rewrite <- E|auto].
Qed.

Lemma canon_NoDup (l : props_t) : canon l -> NoDup (keys l).
Proof.
  induction 1 as [|k x rest F C IH]; simpl; constructor; [|exact IH].
  intros I. rewrite Forall_forall in F. exact (before_irrefl k (F k I)).
Qed.

Lemma canon_app_inv (a : props_t) (k : key) (x : val) (b : props_t) :
  canon (a ++ (k, x) :: b) -> Forall (fun k' => before k' k) (keys a).
Proof.
  induction a as [|[k' x'] a IH]; simpl; intros C; [constructor|].
  inversion C as [|? ? ? F C']; subst. constructor; [|auto].
  rewrite Forall_forall in F. apply F. rewrite keys_app. apply in_or_app.
  right. simpl. auto.
Qed.

Lemma insert_index_end (i : nat) (v : val) (acc : props_t) :
  Forall (fun k' => before k' (KIdx i)) (keys acc) ->
  insert_index i v acc = acc ++ [(KIdx i, v)].
Proof.
  induction acc as [|[k x] acc IH]; simpl; intros F; [reflexivity|].
  inversion F as [|? ? B F']; subst.
  destruct k as [j|s]; simpl in B; [|contradiction].
  rewrite (proj2 (Nat.ltb_lt j i) B). now rewrite IH.
Qed.

(** Assigning a key that comes after all present keys appends it. *)
Lemma prop_set_end (acc : props_t) (k : key) (v : val) :
  Forall (fun k' => before k' k) (keys acc) ->
  prop_set acc k v = acc ++ [(k, v)].
Proof.
  intros F. unfold prop_set, has_key.
  assert (lookup k acc = None) as ->.
  { apply lookup_none_keys. intros I. rewrite Forall_forall in F.
    exact (before_irrefl k (F k I)). }
  destruct k as [i|s]; [now apply insert_index_end|reflexivity].
Qed.

Lemma keys_insert_index (i : nat) (v : val) (l : props_t) (k : key) :
  In k (keys (insert_index i v l)) -> k = KIdx i \/ In k (keys l).
Proof.
  induction l as [|[[j|t] x] l IH]; simpl.
  - intros [E|[]]; auto.
  - destruct (Nat.ltb j i); simpl.
    + intros [E|I]; [auto|]. destruct (IH I); auto.
    + intros [E|I]; auto.
  - intros [E|I]; auto.
Qed.

Lemma canon_insert_index (i : nat) (v : val) (acc : props_t) :
  lookup (KIdx i) acc = None -> canon acc -> canon (insert_index i v acc).
Proof.
  intros L C. induction C as [|k x rest F C IH]; simpl.
  - repeat constructor.
  - simpl in L. destruct k as [j|s].
    + simpl in L. destruct (Nat.eqb_spec i j) as [->|Hne]; [discriminate|].
      destruct (Nat.ltb_spec j i) as [B|B].
      * constructor; [|auto].
        apply Forall_forall. intros k' I.
        destruct (keys_insert_index _ _ _ _ I) as [->|I']; [exact B|].
        rewrite Forall_forall in F. auto.
      * constructor; [|constructor; assumption].
        constructor; [simpl; lia|].
        eapply Forall_impl; [|exact F]. intros [m|t]; simpl; [lia|auto].
    + constructor; [|constructor; assumption].
      constructor; [exact I|].
      eapply Forall_impl; [|exact F]. intros [m|t]; simpl; [tauto|auto].
Qed.

Lemma canon_append (s : string) (v : val) (acc : props_t) :
  lookup (KStr s) acc = None -> canon acc -> canon (acc ++ [(KStr s, v)]).
Proof.
  intros L C. induction C as [|k x rest F C IH]; simpl.
  - repeat constructor.
  - cbn [lookup] in L. destruct (key_eqb_spec (KStr s) k) as [E|Hne]; [discriminate|].
    constructor; [|auto].
    rewrite keys_app. apply Forall_app. split; [exact F|].
    repeat constructor. destruct k as [j|t]; simpl; [exact I|congruence].
Qed.

Lemma canon_prop_set (acc : props_t) (k : key) (v : val) :
  canon acc -> canon (prop_set acc k v).
Proof.
  intros C. unfold prop_set, has_key.
  destruct (lookup k acc) eqn:L.
  - eapply canon_keys; [|exact C]. now rewrite keys_replace.
  - destruct k as [i|s]; [now apply canon_insert_index|now apply canon_append].
Qed.

Lemma In_prop_set (acc : props_t) (k : key) (v : val) (k0 : key) (x : val) :
  In (k0, x) (prop_set acc k v) -> (k0 = k /\ x = v) \/ In (k0, x) acc.
Proof.
  unfold prop_set. destruct (has_key k acc).
  - induction acc as [|[k' x'] acc IH]; simpl; [tauto|].
    destruct (key_eqb_spec k k') as [->|Hne]; simpl.
    + intros [E|I]; [inversion E; subst; auto|auto].
    + intros [E|I]; [auto|]. destruct (IH I); auto.
  - destruct k as [i|s].
    + induction acc as [|[[j|t] x'] acc IH]; simpl.
      * intros [E|[]]. inversion E; subst; auto.
      * destruct (Nat.ltb j i); simpl.
        -- intros [E|I]; [auto|]. destruct (IH I); auto.
        -- intros [E|I]; [inversion E; subst; auto|auto].
      * intros [E|I]; [inversion E; subst; auto|auto].
    + intros I. apply in_app_or in I. destruct I as [I|[E|[]]]; [auto|].
      inversion E; subst; auto.
Qed.

(** ** A second build of an expanded value *)

Lemma set_SObj_plain (acc : props_t) (k : key) (v : val) :
  k <> KStr "__proto__" -> set (SObj acc) k v = Ok (SObj (prop_set acc k v)).
Proof.
  intros H. unfold set. destruct k as [i|name]; [reflexivity|].
  destruct (String.eqb_spec name "__proto__"); [congruence|reflexivity].
Qed.

Lemma kept_not_dispatched (k : key) (x : val) :
  kept k x -> member k = None \/ (forall s, x <> VStr s).
Proof. intros K. inversion K; subst; auto; right; intros; discriminate. Qed.

Lemma keys_rewrap_props (props : props_t) : keys (rewrap_props props) = keys props.
Proof.
  induction props as [|[k x] props IH]; simpl; [reflexivity|now rewrite IH].
Qed.

Lemma visit_props_built (props acc : props_t) :
  (forall k x, In (k, x) props -> kept k x /\ stored x = Ok (rewrap x)) ->
  canon (acc ++ props) ->
  lookup (KStr "__proto__") props = None ->
  visit_props build props (SObj acc) = Ok (SObj (acc ++ rewrap_props props)).
Proof.
  revert acc. induction props as [|[k x] props IH]; intros acc H C L.
  - simpl. now rewrite app_nil_r.
  - cbn [visit_props rewrap_props map].
    destruct (H k x (or_introl eq_refl)) as (K & S).
    rewrite (visit_stored _ _ _ (kept_not_dispatched _ _ K)), S. cbn [bind].
    cbn [lookup] in L.
    destruct (key_eqb_spec (KStr "__proto__") k) as [E|Hne]; [discriminate|].
    rewrite set_SObj_plain by congruence.
    rewrite (prop_set_end _ _ _ (canon_app_inv _ _ _ _ C)). cbn [bind].
    rewrite IH.
    + now rewrite <- app_assoc.
    + intros k' x' I. apply H. now right.
    + eapply canon_keys; [|exact C].
      rewrite <- app_assoc. rewrite !keys_app. reflexivity.
    + exact L.
Qed.

Lemma item_set_pad (acc : list (option val)) (h : nat) (v : val) :
  item_set (List.length acc + h) v acc = acc ++ repeat None h ++ [Some v].
Proof.
  induction acc as [|x acc IH]; simpl.
  - induction h as [|h IHh]; simpl; [reflexivity|now rewrite IHh].
  - now rewrite IH.
Qed.

Lemma visit_items_built (items acc : list (option val)) (h : nat) :
  (forall x, In (Some x) items -> stored x = Ok (rewrap x)) ->
  ends_present items = true ->
  visit_items build (List.length acc + h) items (SArr acc []) =
    Ok (SArr (match items with
              | [] => acc
              | _ => acc ++ repeat None h ++ rewrap_items items
              end) []).
Proof.
  revert acc h. induction items as [|o items IH]; intros acc h H E; [reflexivity|].
  destruct o as [x|].
  - cbn [visit_items]. rewrite visit_index_stored, (H x (or_introl eq_refl)).
    cbn [bind set]. rewrite item_set_pad.
    replace (S (List.length acc + h))
      with (List.length (acc ++ repeat None h ++ [Some (rewrap x)]) + 0)
      by (rewrite !length_app, repeat_length; simpl; lia).
    rewrite IH.
    + destruct items; cbn [rewrap_items map repeat app];
        rewrite <- ?app_assoc; reflexivity.
    + intros y I. apply H. now right.
    + destruct items; [reflexivity|exact E].
  - cbn [visit_items].
    destruct items as [|o' items]; [discriminate E|].
    replace (S (List.length acc + h)) with (List.length acc + S h) by lia.
    rewrite IH.
    + cbn [rewrap_items map]. f_equal. f_equal. f_equal.
      change (None :: ?l) with ([None] ++ l).
      rewrite app_assoc. f_equal.
      clear. induction h as [|h IHh]; simpl; [reflexivity|now rewrite <- IHh].
    + intros y I. apply H. now right.
    + exact E.
Qed.

Lemma map_build_built (items : list (option val)) :
  (forall y, In (Some y) items -> build y = Ok (rewrap y)) ->
  map_build build items = Ok (rewrap_items items).
Proof.
  induction items as [|[y|] items IH]; intros H; simpl; [reflexivity| |].
  - rewrite (H y (or_introl eq_refl)). simpl. rewrite IH; [reflexivity|].
    intros z I. apply H. now right.
  - rewrite IH; [reflexivity|]. intros z I. apply H. now right.
Qed.

Lemma length_undefined (props : props_t) :
  (forall x, In (KStr "length", x) props -> x = VUndef) ->
  length_defined (VObj props) = Ok false.
Proof.
  intros H. simpl. destruct (lookup (KStr "length") props) as [x|] eqn:L; [|reflexivity].
  assert (In (KStr "length", x) props) as I.
  { clear H. induction props as [|[k y] props IH]; [discriminate|].
    cbn [lookup] in L. destruct (key_eqb_spec (KStr "length") k) as [<-|Hne].
    - inversion L; subst. now left.
    - right. auto. }
  now rewrite (H x I).
Qed.

(** Building an expanded value changes nothing but its callables, each of
    which is wrapped once more. *)
Lemma build_built (v : val) :
  (built v -> build v = Ok (rewrap v)) /\
  (forall k, kept k v -> stored v = Ok (rewrap v)).
Proof.
  induction v as [| | b | z | s | c | items named IHi IHn | props IH]
    using val_nested_ind;
    try (split; [intros B; inversion B|intros k K; inversion K; reflexivity]).
  - split.
    + intros B. inversion B as [? E K|]; subst.
      cbn [build]. change 0 with (List.length (@nil (option val)) + 0).
      rewrite visit_items_built; [|intros x I; apply (IHi x I) with (k := KIdx 0); auto|assumption].
      cbn [bind visit_props finish rewrap map].
      destruct items; reflexivity.
    + intros k K. inversion K as [| | | | | |? ? B]; subst.
      cbn [stored length_defined bind call_map find_map lookup].
      rewrite map_build_built; [reflexivity|].
      intros y I. apply (IHi y I). auto.
  - assert (built (VObj props) -> build (VObj props) = Ok (rewrap (VObj props))) as G.
    { intros B. inversion B as [|? C P L K]; subst.
      rewrite build_unfold, length_undefined by assumption.
      cbn [bind fresh_store own_entries].
      rewrite (visit_props_built props []); [reflexivity| |assumption|assumption].
      intros k' x I. split; [auto|]. apply (IH k' x I) with (k := k'). auto. }
    split; [exact G|].
    intros k K. inversion K as [| | | | |? ? B|]; subst.
    cbn [stored]. inversion B as [|? C P L K']; subst.
    rewrite length_undefined by assumption. cbn [bind]. auto.
Qed.

(** ** The result of build on a tidy input is expanded *)

Lemma built_empty : built (VObj []).
Proof. constructor; [constructor|reflexivity|intros x []|intros k x []]. Qed.

Lemma set_built (acc : props_t) (k : key) (v : val) (st' : store) :
  built (VObj acc) -> kept k v -> (k = KStr "length" -> v = VUndef) ->
  set (SObj acc) k v = Ok st' ->
  exists acc', st' = SObj acc' /\ built (VObj acc').
Proof.
  intros B K Len H. inversion B as [|? C P L KK]; subst.
  destruct (key_eqb_spec k (KStr "__proto__")) as [->|Hne].
  - unfold set in H. cbn [String.eqb Ascii.eqb Bool.eqb] in H.
    destruct v; inversion H; subst; eauto.
  - rewrite set_SObj_plain in H by assumption. inversion H; subst.
    eexists. split; [reflexivity|]. constructor.
    + now apply canon_prop_set.
    + rewrite lookup_prop_set.
      now rewrite (key_eqb_neq _ _ (not_eq_sym Hne)).
    + intros x I. apply In_prop_set in I. destruct I as [[E ->]|I]; auto.
    + intros k' x I. apply In_prop_set in I. destruct I as [[-> ->]|I]; auto.
Qed.

Lemma set_all_built (entries acc : props_t) (st' : store) :
  forallb expansion_entry entries = true -> built (VObj acc) ->
  set_all (SObj acc) entries = Ok st' ->
  exists acc', st' = SObj acc' /\ built (VObj acc').
Proof.
  revert acc. induction entries as [|[k v] entries IH]; intros acc F B H.
  - inversion H; subst. eauto.
  - cbn [forallb] in F. apply andb_prop in F. destruct F as (F1 & F).
    unfold expansion_entry in F1. cbn [fst snd] in F1.
    apply andb_prop in F1. destruct F1 as (EK & PV).
    destruct (expansion_key_free k EK) as (M & NL & _).
    cbn [set_all] in H. bind_inv H.
    destruct (set_built acc k v a B) as (acc' & -> & B'); [| |assumption|eauto].
    + destruct v; try discriminate PV; constructor. exact M.
    + intros E. congruence.
Qed.

Lemma ends_present_item_set (i : nat) (v : val) (acc : list (option val)) :
  ends_present acc = true -> ends_present (item_set i v acc) = true.
Proof.
  revert i. induction acc as [|x acc IH]; intros i E.
  - induction i as [|i IHi]; [reflexivity|].
    cbn [item_set]. destruct (item_set i v []) eqn:Q; [|exact IHi].
    destruct i; discriminate Q.
  - destruct i as [|i]; cbn [item_set].
    + destruct acc; [reflexivity|exact E].
    + assert (ends_present (item_set i v acc) = true) as R.
      { apply IH. destruct acc; [reflexivity|exact E]. }
      destruct (item_set i v acc) eqn:Q; [|exact R].
      destruct i, acc; discriminate Q.
Qed.

Lemma In_item_set (i : nat) (v y : val) (acc : list (option val)) :
  In (Some y) (item_set i v acc) -> y = v \/ In (Some y) acc.
Proof.
  revert acc. induction i as [|i IH]; intros acc; destruct acc as [|x acc]; simpl.
  - intros [E|[]]. inversion E; auto.
  - intros [E|I]; [inversion E; auto|auto].
  - intros [E|I]; [discriminate|]. destruct (IH [] I) as [|[]]; auto.
  - intros [E|I]; [auto|]. destruct (IH acc I); auto.
Qed.

Lemma ends_present_dense (l : list val) : ends_present (map Some l) = true.
Proof.
  induction l as [|x l IH]; [reflexivity|].
  destruct l; [reflexivity|exact IH].
Qed.

Lemma map_build_inv (items ys : list (option val)) (y' : val) :
  map_build build items = Ok ys -> In (Some y') ys ->
  exists y, In (Some y) items /\ build y = Ok y'.
Proof.
  revert ys. induction items as [|[y|] items IH]; intros ys H I; simpl in H.
  - inversion H; subst. destruct I.
  - bind_inv H. bind_inv H. inversion H; subst.
    destruct I as [E|I].
    + inversion E; subst. exists y. split; [now left|assumption].
    + destruct (IH _ Ha0 I) as (z & Iz & Bz). exists z. split; [now right|assumption].
  - bind_inv H. inversion H; subst.
    destruct I as [E|I]; [discriminate|].
    destruct (IH _ Ha I) as (z & Iz & Bz). exists z. split; [now right|assumption].
Qed.

Lemma visit_obj_built (acc : props_t) (k : key) (x : val) (st' : store) :
  (forall r, member k = None \/ (forall s, x <> VStr s) ->
             stored x = Ok r -> kept k r) ->
  (k = KStr "length" -> x = VUndef) ->
  built (VObj acc) ->
  visit build (SObj acc) k x = Ok st' ->
  exists acc', st' = SObj acc' /\ built (VObj acc').
Proof.
  intros K Len B H.
  assert (member k = None \/ (forall s, x <> VStr s) ->
          exists acc', st' = SObj acc' /\ built (VObj acc')) as Plain.
  { intros N. rewrite (visit_stored _ _ _ N) in H. bind_inv H.
    apply (set_built acc k a st' B); [now apply K| |exact H].
    intros E. rewrite (Len E) in Ha. now inversion Ha. }
  destruct (member k) as [m|] eqn:M; [|auto].
  destruct x; try (apply Plain; right; intros; discriminate).
  cbn [visit] in H. rewrite M in H. bind_inv H.
  apply (set_all_built (own_entries a) acc st'); [|exact B|exact H].
  eapply member_writes; eauto.
Qed.

Lemma visit_props_obj_built (props acc : props_t) (st' : store) :
  (forall k x, In (k, x) props ->
     (forall r, member k = None \/ (forall s, x <> VStr s) ->
                stored x = Ok r -> kept k r) /\
     (k = KStr "length" -> x = VUndef)) ->
  built (VObj acc) ->
  visit_props build props (SObj acc) = Ok st' ->
  exists acc', st' = SObj acc' /\ built (VObj acc').
Proof.
  revert acc. induction props as [|[k x] props IH]; intros acc Hp B H; simpl in H.
  - inversion H; subst. eauto.
  - bind_inv H. destruct (Hp k x (or_introl eq_refl)) as (K & Len).
    destruct (visit_obj_built acc k x a K Len B Ha) as (acc' & -> & B').
    apply (IH acc'); [|exact B'|exact H].
    intros k' x' I. apply Hp. now right.
Qed.

Lemma visit_items_arr_built (items acc : list (option val)) (i : nat) (st' : store) :
  (forall x, In (Some x) items -> forall r, stored x = Ok r -> kept (KIdx 0) r) ->
  built (VArr acc []) ->
  visit_items build i items (SArr acc []) = Ok st' ->
  exists acc', st' = SArr acc' [] /\ built (VArr acc' []).
Proof.
  revert acc i. induction items as [|[x|] items IH]; intros acc i Hp B H; simpl in H.
  - inversion H; subst. eauto.
  - bind_inv H. rewrite visit_index_stored in Ha. bind_inv Ha.
    cbn [set] in Ha. inversion Ha; subst.
    apply (IH (item_set i a0 acc) (S i)); [|clear H Ha|exact H].
    + intros y I. apply Hp. now right.
    + inversion B as [? E K|]; subst. constructor.
      * now apply ends_present_item_set.
      * intros y I. apply In_item_set in I. destruct I as [->|I]; [|auto].
        apply (Hp x (or_introl eq_refl)). exact Ha0.
  - apply (IH acc (S i)); [|exact B|exact H].
    intros y I. apply Hp. now right.
Qed.

(** On a tidy input, what [build] returns is expanded, and what the loop
    stores for it may stand in an expanded value. *)
Lemma build_tidy (m : val) :
  tidy m ->
  (forall r, build m = Ok r -> built r) /\
  (forall k r, member k = None \/ (forall s, m <> VStr s) ->
               stored m = Ok r -> kept k r).
Proof.
  induction m as [| | b | z | s | c | items named IHi IHn | props IH]
    using val_nested_ind; intros T.
  - split; [discriminate|]. intros k r _ H. inversion H. constructor.
  - split; discriminate.
  - split; intros; [inversion H; apply built_empty|inversion H0; constructor].
  - split; intros; [inversion H; apply built_empty|inversion H0; constructor].
  - split.
    + intros r H. inversion H; subst. unfold build_string, dense. constructor.
      * apply ends_present_dense.
      * intros x I. rewrite map_map in I. apply in_map_iff in I.
        destruct I as (c & E & _). inversion E; subst. now constructor.
    + intros k r [M|N] H; inversion H; subst; [now constructor|now destruct (N s)].
  - split.
    + intros r H. inversion H; subst. constructor; [reflexivity|intros x []].
    + intros k r _ H. inversion H. constructor.
  - inversion T as [| | | | | |? Ti|]; subst. split.
    + intros r H. cbn [build] in H. bind_inv H. cbn [visit_props bind] in H.
      inversion H; subst.
      destruct (visit_items_arr_built items [] 0 a) as (acc' & -> & B); [| |exact Ha|exact B].
      * intros x I r S. apply (IHi x I (Ti x I)); [|exact S].
        now left.
      * constructor; [reflexivity|intros x []].
    + intros k r _ H.
      cbn [stored length_defined bind call_map find_map lookup] in H.
      bind_inv H. inversion H; subst. constructor.
      intros y' I. destruct (map_build_inv _ _ _ Ha I) as (y & Iy & By).
      exact (proj1 (IHi y Iy (Ti y Iy)) y' By).
  - inversion T as [| | | | | | |? Pro Len Tp]; subst.
    assert (forall r, build (VObj props) = Ok r -> built r) as G.
    { intros r H. rewrite build_unfold, (length_undefined props Len) in H.
      cbn [bind fresh_store own_entries] in H. bind_inv H. inversion H; subst.
      destruct (visit_props_obj_built props [] a) as (acc' & -> & B);
        [|apply built_empty|exact Ha|exact B].
      intros k x I. split.
      - intros r N S. exact (proj2 (IH k x I (Tp k x I)) k r N S).
      - intros ->. auto. }
    split; [exact G|].
    intros k r _ H. cbn [stored] in H. rewrite (length_undefined props Len) in H.
    cbn [bind] in H.
    destruct (build_mapping props r (length_undefined props Len) H) as (props' & ->).
    constructor. exact (G _ H).
Qed.

Lemma built_tidy (v : val) :
  (built v -> tidy v) /\ (forall k, kept k v -> tidy v).
Proof.
  induction v as [| | b | z | s | c | items named IHi IHn | props IH]
    using val_nested_ind.
  1-6: split; [intros B; inversion B|intros k K; inversion K; constructor].
  - split.
    + intros B. inversion B as [? E K|]; subst. constructor.
      intros y I. exact (proj2 (IHi y I) (KIdx 0) (K y I)).
    + intros k K. inversion K as [| | | | | |? ? B]; subst. constructor.
      intros y I. exact (proj1 (IHi y I) (B y I)).
  - assert (built (VObj props) -> tidy (VObj props)) as G.
    { intros B. inversion B as [|? C P L K]; subst. constructor; [exact P|exact L|].
      intros k x I. exact (proj2 (IH k x I) k (K k x I)). }
    split; [exact G|].
    intros k K. inversion K; subst. auto.
Qed.

Lemma rewrap_callable_free (v : val) : callable_free v = true -> rewrap v = v.
Proof.
  induction v as [| | b | z | s | c | items named IHi IHn | props IH]
    using val_nested_ind; intros F; try reflexivity; try discriminate F.
  - cbn [callable_free] in F. apply andb_prop in F. destruct F as (F1 & F2).
    cbn [rewrap]. f_equal.
    + clear F2 IHn. induction items as [|[y|] items IHl]; simpl in *; [reflexivity| |].
      * apply andb_prop in F1. destruct F1 as (Fy & F1).
        rewrite (IHi y (or_introl eq_refl) Fy). f_equal. apply IHl; auto.
      * f_equal. apply IHl; auto.
    + clear F1 IHi. induction named as [|[k x] named IHl]; simpl in *; [reflexivity|].
      apply andb_prop in F2. destruct F2 as (Fx & F2).
      rewrite (IHn k x (or_introl eq_refl) Fx). f_equal. apply IHl; eauto.
  - cbn [callable_free] in F. cbn [rewrap]. f_equal.
    induction props as [|[k x] props IHl]; simpl in *; [reflexivity|].
    apply andb_prop in F. destruct F as (Fx & F).
    rewrite (IH k x (or_introl eq_refl) Fx). f_equal. apply IHl; eauto.
Qed.

(** With host callables that return tidy values, every invocation
    returns a tidy value. *)
Lemma call_tidy (env : nat -> list val -> outcome val) :
  (forall id args y, env id args = Ok y -> tidy y) ->
  forall c args y, call env c args = Ok y -> tidy y.
Proof.
  intros E c. induction c as [id|c IH]; intros args y H; simpl in H.
  - eauto.
  - bind_inv H. apply (proj1 (built_tidy y)).
    exact (proj1 (build_tidy a (IH _ _ Ha)) y H).
Qed.

(** ** Inputs within the fragment *)

Lemma borderRadius_returns (value : string) : exists r, borderRadius value = Ok r.
Proof.
  destruct (occurs "/" value) eqn:O.
  - destruct (borderRadius_slash value O) as (h & v & rest & _ & ->). eauto.
  - rewrite (borderRadius_plain value O). eauto.
Qed.

(** A member called with a string returns or throws. *)
Lemma member_modelled (k : key) (m : method) (s : string) :
  member k = Some m -> m s <> Unmodelled.
Proof.
  destruct k as [i|name]; [discriminate|].
  unfold member.
  cbn [StyleBuilder_prototype Object_prototype app find_method].
  repeat match goal with
         | |- (if String.eqb name ?n then _ else _) = _ -> _ =>
             destruct (String.eqb name n)
         end;
    intros M; inversion M; subst; clear M; try discriminate.
  - destruct (borderRadius_returns s) as (r & ->). discriminate.
  - rewrite border_concat. discriminate.
Qed.

Lemma set_all_plain (entries acc : props_t) :
  forallb expansion_entry entries = true ->
  exists acc', set_all (SObj acc) entries = Ok (SObj acc').
Proof.
  revert acc. induction entries as [|[k v] entries IH]; intros acc F.
  - exists acc. reflexivity.
  - cbn [forallb] in F. apply andb_prop in F. destruct F as (F1 & F).
    unfold expansion_entry in F1. cbn [fst] in F1. apply andb_prop in F1.
    destruct (expansion_key_free k (proj1 F1)) as (_ & _ & _ & P).
    cbn [set_all]. rewrite set_SObj_plain by exact P. cbn [bind]. apply IH, F.
Qed.

Lemma visit_props_modelled (props : props_t) :
  (forall k x, In (k, x) props -> stored x <> Unmodelled) ->
  lookup (KStr "__proto__") props = None ->
  forall acc,
    (exists e, visit_props build props (SObj acc) = Throw e) \/
    (exists acc', visit_props build props (SObj acc) = Ok (SObj acc')).
Proof.
  induction props as [|[k x] props IH]; intros S P acc.
  - right. exists acc. reflexivity.
  - cbn [lookup] in P.
    destruct (key_eqb_spec (KStr "__proto__") k) as [E|Hne]; [discriminate|].
    assert (forall acc1, visit build (SObj acc) k x = Ok (SObj acc1) ->
              (exists e, visit_props build ((k, x) :: props) (SObj acc) = Throw e) \/
              (exists acc', visit_props build ((k, x) :: props) (SObj acc) = Ok (SObj acc')))
      as Next.
    { intros acc1 V. cbn [visit_props]. rewrite V. cbn [bind].
      apply IH; [|exact P]. intros k' x' I. apply (S k' x'). now right. }
    assert (member k = None \/ (forall s, x <> VStr s) ->
              (exists e, visit_props build ((k, x) :: props) (SObj acc) = Throw e) \/
              (exists acc', visit_props build ((k, x) :: props) (SObj acc) = Ok (SObj acc')))
      as Plain.
    { intros N. pose proof (S k x (or_introl eq_refl)) as Sx.
      destruct (stored x) as [y|e|] eqn:Q; [| |now destruct Sx].
      - apply (Next (prop_set acc k y)).
        rewrite (visit_stored _ _ _ N), Q. cbn [bind].
        apply set_SObj_plain. congruence.
      - left. exists e. cbn [visit_props].
        rewrite (visit_stored _ _ _ N), Q. reflexivity. }
    destruct (member k) as [m|] eqn:M; [|auto].
    destruct x; try (apply Plain; right; intros; discriminate).
    pose proof (member_modelled k m s M) as Ms.
    destruct (m s) as [r|e|] eqn:R; [| |now destruct Ms].
    + destruct (set_all_plain (own_entries r) acc (member_writes _ _ _ _ M R)) as (acc1 & A).
      apply (Next acc1). cbn [visit]. rewrite M, R. exact A.
    + left. exists e. cbn [visit_props visit]. rewrite M, R. reflexivity.
Qed.

Lemma visit_items_modelled (items : list (option val)) :
  (forall x, In (Some x) items -> stored x <> Unmodelled) ->
  forall i acc,
    (exists e, visit_items build i items (SArr acc []) = Throw e) \/
    (exists acc', visit_items build i items (SArr acc []) = Ok (SArr acc' [])).
Proof.
  induction items as [|[x|] items IH]; intros S i acc.
  - right. exists acc. reflexivity.
  - cbn [visit_items]. rewrite visit_index_stored.
    pose proof (S x (or_introl eq_refl)) as Sx.
    destruct (stored x) as [y|e|]; [| |now destruct Sx]; cbn [bind set].
    + apply IH. intros z I. apply S. now right.
    + left. now exists e.
  - cbn [visit_items]. apply IH. intros z I. apply S. now right.
Qed.

Lemma map_build_modelled (items : list (option val)) :
  (forall x, In (Some x) items -> build x <> Unmodelled) ->
  map_build build items <> Unmodelled.
Proof.
  induction items as [|[x|] items IH]; intros B; cbn [map_build]; [discriminate| |].
  - pose proof (B x (or_introl eq_refl)) as Bx.
    destruct (build x) as [y|e|]; [| |now destruct Bx]; cbn [bind]; [|discriminate].
    assert (map_build build items <> Unmodelled) as R
        by (apply IH; intros z I; apply B; now right).
    destruct (map_build build items); [discriminate|discriminate|now destruct R].
  - assert (map_build build items <> Unmodelled) as R
        by (apply IH; intros z I; apply B; now right).
    destruct (map_build build items); [discriminate|discriminate|now destruct R].
Qed.

(** On a tidy input [build] returns or throws: every such input is within
    the fragment. *)
Lemma tidy_modelled (m : val) :
  tidy m -> build m <> Unmodelled /\ stored m <> Unmodelled.
Proof.
  induction m as [| | b | z | s | c | items named IHi IHn | props IH]
    using val_nested_ind; intros T; try (split; discriminate).
  - inversion T as [| | | | | |? Ti|]; subst. split.
    + cbn [build].
      destruct (visit_items_modelled items
                  (fun x I => proj2 (IHi x I (Ti x I))) 0 [])
        as [(e & ->)|(acc' & ->)]; discriminate.
    + cbn [stored length_defined bind]. unfold call_map. cbn [find_map lookup].
      pose proof (map_build_modelled items (fun x I => proj1 (IHi x I (Ti x I)))) as R.
      destruct (map_build build items); [discriminate|discriminate|now destruct R].
  - inversion T as [| | | | | | |? Pro Len Tp]; subst.
    assert (build (VObj props) <> Unmodelled) as G.
    { rewrite build_unfold, (length_undefined props Len).
      cbn [bind fresh_store own_entries].
      destruct (visit_props_modelled props
                  (fun k x I => proj2 (IH k x I (Tp k x I))) Pro [])
        as [(e & ->)|(acc' & ->)]; discriminate. }
    split; [exact G|].
    cbn [stored]. rewrite (length_undefined props Len). exact G.
Qed.

(** ** Idempotence *)

(** C9 (as the code has it). An expanded value that holds no callable is
    returned by [build] as it is.  On a tidy input (no mapping with a
    defined [length] or an own [__proto__] key, no array with named
    properties, at any depth) [build] returns or throws, every such input
    being within the fragment; when it returns, the result is expanded and
    a second [build] returns it with each callable wrapped once more,
    hence unchanged when it holds no callable; and a twice-wrapped
    callable returns what the once-wrapped one returns, rewrapped in the
    same way, when the host callables return tidy values. *)
Theorem build_idempotent :
  (forall m, built m -> callable_free m = true -> build m = Ok m) /\
  (forall m r, tidy m -> build m = Ok r ->
     built r /\ build r = Ok (rewrap r)) /\
  (forall r, callable_free r = true -> rewrap r = r) /\
  (forall env, (forall id args y, env id args = Ok y -> tidy y) ->
     forall c args,
       call env (Wrapped (Wrapped c)) args =
         omap rewrap (call env (Wrapped c) args)) /\
  (forall m, tidy m -> build m <> Unmodelled).
Proof.
  split; [|split; [|split; [|split]]].
  - intros m B F. rewrite (proj1 (build_built m) B).
    now rewrite (rewrap_callable_free m F).
  - intros m r T H.
    pose proof (proj1 (build_tidy m T) r H) as B.
    split; [exact B|exact (proj1 (build_built r) B)].
  - exact rewrap_callable_free.
  - intros env E c args. cbn [call].
    destruct (call env c args) as [y| |] eqn:C; try reflexivity.
    cbn [bind]. destruct (build y) as [z| |] eqn:B; try reflexivity.
    cbn [bind omap].
    pose proof (call_tidy env E c args y C) as T.
    exact (proj1 (build_built z) (proj1 (build_tidy y T) z B)).
  - intros m T. exact (proj1 (tidy_modelled m T)).
Qed.

(** C9 as worded fails: a mapping without any shorthand key is changed
    when it holds an array of strings, or a callable (replaced by a
    wrapper that behaves differently); and with a [length] key a second
    [build] does not give the result of the first. *)
Lemma build_idempotent_counterexample :
  build (VObj [(KStr "list", dense [VStr "ab"])]) =
    Ok (VObj [(KStr "list", dense [dense [VStr "a"; VStr "b"]])]) /\
  (build (VObj [(KStr "style", VFun (Host 0))]) =
     Ok (VObj [(KStr "style", VFun (Wrapped (Host 0)))]) /\
   let env := fun (_ : nat) (_ : list val) => Ok (VObj [(KStr "padding", VStr "5px")]) in
   call env (Wrapped (Host 0)) [] <> call env (Host 0) []) /\
  (build (VObj [(KStr "length", VNum 2)]) = Ok (VArr [None; None] []) /\
   build (VArr [None; None] []) = Ok (VArr [] [])).
Proof.
  repeat split. cbv zeta. discriminate.
Qed.

Ltac tidy_tac :=
  repeat first
    [ progress intros
    | match goal with
      | H : In _ (_ :: _) |- _ => simpl in H
      | H : In _ [] |- _ => destruct H
      | H : _ \/ _ |- _ => destruct H as [H|H]
      | H : (_, _) = (_, _) |- _ => inversion H; subst; clear H
      | H : Some _ = Some _ |- _ => inversion H; subst; clear H
      | H : False |- _ => destruct H
      end
    | constructor ].

Example build_twice :
  let m := VObj [ (KStr "margin", VStr "1px 2px");
                  (KStr "hover", VObj [(KStr "border", VStr "1px solid red")]);
                  (KStr "variants", dense [VObj [(KStr "padding", VStr "5px")]]);
                  (KStr "zIndex", VNum 5);
                  (KStr "style", VFun (Host 0)) ] in
  tidy m /\ exists r, build m = Ok r /\ build r = Ok (rewrap r).
Proof.
  cbv zeta. split; [unfold dense; tidy_tac|].
  eexists. split; reflexivity.
Qed.

(** * The statements at concrete inputs *)

Lemma explodeToFour_spec_witness :
  _explodeToFour "1px 2px 3px" = [VStr "1px"; VStr "2px"; VStr "3px"; VStr "2px"] /\
  _explodeToFour "a b c d e" = map VStr ["a"; "b"; "c"; "d"; "e"].
Proof.
  destruct (explodeToFour_spec "1px 2px 3px") as (_ & _ & _ & _ & H3 & _).
  destruct (explodeToFour_spec "a b c d e") as (_ & _ & _ & _ & _ & _ & H5).
  split; [apply H3; reflexivity|apply H5; simpl; lia].
Defined.

Lemma borderSide_spec_witness :
  borderSide "dashed" (Some "Left") =
    VObj [ (KStr "borderLeftWidth", VStr "initial");
           (KStr "borderLeftStyle", VStr "dashed");
           (KStr "borderLeftColor", VStr "initial") ] /\
  borderSide "2em" (Some "Bottom") =
    VObj [ (KStr "borderBottomWidth", VStr "2em");
           (KStr "borderBottomStyle", VStr "initial");
           (KStr "borderBottomColor", VStr "initial") ].
Proof.
  split.
  - apply (proj1 (borderSide_spec "dashed" "Left")). simpl. tauto.
  - apply (proj2 (borderSide_spec "2em" "Bottom")); [|reflexivity].
    simpl. intuition discriminate.
Defined.

Lemma border_spec_witness :
  border "2px dotted" =
    Ok (VObj [ (KStr "borderLeftWidth", VStr "2px");
               (KStr "borderLeftStyle", VStr "dotted");
               (KStr "borderRightWidth", VStr "2px");
               (KStr "borderRightStyle", VStr "dotted");
               (KStr "borderTopWidth", VStr "2px");
               (KStr "borderTopStyle", VStr "dotted");
               (KStr "borderBottomWidth", VStr "2px");
               (KStr "borderBottomStyle", VStr "dotted") ]).
Proof. exact (proj1 (border_spec "2px dotted")). Defined.

Lemma borderRadius_spec_witness :
  borderRadius "1px 2px/3px" =
    Ok (VObj [ (KStr "borderTopLeftRadius", VStr "1px 3px");
               (KStr "borderTopRightRadius", VStr "2px 3px");
               (KStr "borderBottomRightRadius", VStr "1px 3px");
               (KStr "borderBottomLeftRadius", VStr "2px 3px") ]) /\
  borderRadius "5px" =
    Ok (VObj [ (KStr "borderTopLeftRadius", VStr "5px");
               (KStr "borderTopRightRadius", VStr "5px");
               (KStr "borderBottomRightRadius", VStr "5px");
               (KStr "borderBottomLeftRadius", VStr "5px") ]).
Proof.
  destruct borderRadius_spec as (Two & One & _). split.
  - exact (Two "1px 2px" "3px" eq_refl eq_refl).
  - exact (One "5px" eq_refl).
Defined.

Lemma build_shape_witness :
  build (dense [ VObj [(KStr "padding", VStr "5px")]; VObj [(KStr "color", VStr "red")] ]) =
    Ok (dense [ VObj [ (KStr "paddingTop", VStr "5px"); (KStr "paddingRight", VStr "5px");
                       (KStr "paddingBottom", VStr "5px"); (KStr "paddingLeft", VStr "5px") ];
                VObj [(KStr "color", VStr "red")] ]) /\
  is_mapping (VObj [(KStr "color", VStr "red")]).
Proof.
  destruct build_shape as (Seq & _ & _ & _ & Map). split.
  - rewrite Seq. reflexivity.
  - apply (Map [(KStr "color", VStr "red")]); reflexivity.
Defined.

Lemma build_idempotent_witness :
  let r := VObj [ (KStr "marginTop", VStr "1px"); (KStr "marginRight", VStr "1px");
                  (KStr "marginBottom", VStr "1px"); (KStr "marginLeft", VStr "1px");
                  (KStr "hover", VObj [(KStr "color", VStr "red")]) ] in
  built r /\ build r = Ok (rewrap r).
Proof.
  cbv zeta. destruct build_idempotent as (_ & Twice & _).
  apply (Twice (VObj [ (KStr "margin", VStr "1px");
                       (KStr "hover", VObj [(KStr "color", VStr "red")]) ])).
  - tidy_tac.
  - reflexivity.
Defined.

Lemma applyPX_spec_witness :
  nth_error (applyPX ["10"; "1.5em"]) 0 = Some "10px" /\
  nth_error (applyPX ["10"; "1.5em"]) 1 = Some "1.5em".
Proof.
  destruct (applyPX_spec ["10"; "1.5em"]) as (_ & H). split.
  - apply (H 0 "10" eq_refl). intros u I C.
    apply indexOf_found in C. simpl in I.
    repeat (destruct I as [<-|I]; [discriminate C|]). exact I.
  - apply (proj2 (proj2 (H 1 "1.5em" eq_refl))).
    exists "em". split; [simpl; tauto|reflexivity].
Defined.

Example wrapped_call :
  let env := fun (id : nat) (args : list val) =>
               match args with
               | [VStr a; VStr b] => Ok (VObj [(KStr "margin", VStr (a ++ " " ++ b))])
               | _ => Throw TypeError
               end in
  call env (Wrapped (Host 0)) [VStr "1px"; VStr "2px"] =
    Ok (VObj [ (KStr "marginTop", VStr "1px"); (KStr "marginRight", VStr "2px");
               (KStr "marginBottom", VStr "1px"); (KStr "marginLeft", VStr "2px") ]) /\
  call_traced env (Wrapped (Host 0)) [VStr "1px"; VStr "2px"] =
    (call env (Wrapped (Host 0)) [VStr "1px"; VStr "2px"],
     [(0, [VStr "1px"; VStr "2px"])]).
Proof. split; reflexivity. Qed.

Example build_nested_mapping :
  build (VObj [(KStr "hover", VObj [(KStr "padding", VStr "5px")])]) =
    Ok (VObj [(KStr "hover",
               VObj [ (KStr "paddingTop", VStr "5px"); (KStr "paddingRight", VStr "5px");
                      (KStr "paddingBottom", VStr "5px"); (KStr "paddingLeft", VStr "5px") ])]).
Proof. reflexivity. Qed.

Example margin_two_tokens :
  margin "1px 2px" =
    VObj [ (KStr "marginTop", VStr "1px"); (KStr "marginRight", VStr "2px");
           (KStr "marginBottom", VStr "1px"); (KStr "marginLeft", VStr "2px") ].
Proof. reflexivity. Qed.

Example borderStyle_solid :
  borderStyle "solid" =
    VObj [ (KStr "borderTopStyle", VStr "solid"); (KStr "borderRightStyle", VStr "solid");
           (KStr "borderBottomStyle", VStr "solid"); (KStr "borderLeftStyle", VStr "solid") ].
Proof. reflexivity. Qed.

(** * Further properties of the class *)

(** ** The four-slot helpers *)

(** X1. The array returned by [_explodeToFour] has four entries, or as
    many as there are tokens when there are more than four, and every
    entry is a string: no slot is ever [undefined], also for the empty
    string, whose four slots are empty strings. *)
Theorem explodeToFour_length (value : string) :
  List.length (_explodeToFour value) = Nat.max 4 (List.length (split " " value)) /\
  Forall is_string (_explodeToFour value) /\
  _explodeToFour "" = [VStr ""; VStr ""; VStr ""; VStr ""].
Proof.
  split; [|split; [|reflexivity]].
  - unfold _explodeToFour.
    destruct (split_nonempty " " value) as (t0 & rest & E). rewrite E.
    destruct rest as [|t1 [|t2 [|t3 rest]]]; cbn -[Nat.max]; try reflexivity.
    rewrite length_map. simpl. lia.
  - unfold _explodeToFour.
    destruct (split_nonempty " " value) as (t0 & rest & E). rewrite E.
    destruct rest as [|t1 [|t2 [|t3 rest]]]; cbn -[map].
    + apply (is_string_map [t0; t0; t0; t0]).
    + apply (is_string_map [t0; t1; t0; t1]).
    + apply (is_string_map [t0; t1; t2; t1]).
    + apply is_string_map.
Qed.

Ltac four_keys :=
  unfold prop_set, has_key; cbn [lookup replace key_eqb app];
  repeat (rewrite ?eqb_app_l;
          cbn [lookup replace key_eqb app String.append String.eqb Ascii.eqb
               Bool.eqb]).

(** X2. For every array and every prefix and suffix (a missing one counts
    as empty), [_applyFour] returns exactly four properties, Top, Right,
    Bottom, Left in this order, holding the first four slots of the
    array; the four keys never coincide, and a slot past the end of a
    short array is [undefined]. *)
Theorem applyFour_keys (valueArr : list val) (prefix suffix : option string) :
  _applyFour valueArr prefix suffix =
    VObj [ (KStr (or_empty prefix ++ "Top" ++ or_empty suffix), at_index valueArr 0);
           (KStr (or_empty prefix ++ "Right" ++ or_empty suffix), at_index valueArr 1);
           (KStr (or_empty prefix ++ "Bottom" ++ or_empty suffix), at_index valueArr 2);
           (KStr (or_empty prefix ++ "Left" ++ or_empty suffix), at_index valueArr 3) ] /\
  (forall i, List.length valueArr <= i -> at_index valueArr i = VUndef) /\
  _applyFour [] prefix suffix =
    VObj [ (KStr (or_empty prefix ++ "Top" ++ or_empty suffix), VUndef);
           (KStr (or_empty prefix ++ "Right" ++ or_empty suffix), VUndef);
           (KStr (or_empty prefix ++ "Bottom" ++ or_empty suffix), VUndef);
           (KStr (or_empty prefix ++ "Left" ++ or_empty suffix), VUndef) ].
Proof.
  assert (forall arr, _applyFour arr prefix suffix =
    VObj [ (KStr (or_empty prefix ++ "Top" ++ or_empty suffix), at_index arr 0);
           (KStr (or_empty prefix ++ "Right" ++ or_empty suffix), at_index arr 1);
           (KStr (or_empty prefix ++ "Bottom" ++ or_empty suffix), at_index arr 2);
           (KStr (or_empty prefix ++ "Left" ++ or_empty suffix), at_index arr 3) ]) as G.
  { intros arr. unfold _applyFour. cbv zeta. four_keys. reflexivity. }
  split; [apply G|split].
  - intros i L. unfold at_index. now apply nth_overflow.
  - rewrite G. reflexivity.
Qed.

(** X3. The same for [_applyFourCorner] with TopLeft, TopRight,
    BottomRight, BottomLeft. *)
Theorem applyFourCorner_keys (valueArr : list val) (prefix suffix : option string) :
  _applyFourCorner valueArr prefix suffix =
    VObj [ (KStr (or_empty prefix ++ "TopLeft" ++ or_empty suffix), at_index valueArr 0);
           (KStr (or_empty prefix ++ "TopRight" ++ or_empty suffix), at_index valueArr 1);
           (KStr (or_empty prefix ++ "BottomRight" ++ or_empty suffix), at_index valueArr 2);
           (KStr (or_empty prefix ++ "BottomLeft" ++ or_empty suffix), at_index valueArr 3) ] /\
  (forall i, List.length valueArr <= i -> at_index valueArr i = VUndef).
Proof.
  split.
  - unfold _applyFourCorner. cbv zeta. four_keys. reflexivity.
  - intros i L. unfold at_index. now apply nth_overflow.
Qed.

(** ** The box-model expanders *)

(** X4. [margin], [padding], [borderStyle], [borderColor] and
    [borderWidth] expand a value by its number of tokens: one token goes
    to all four sides, two tokens to top/bottom and right/left, three
    tokens to top, right/left and bottom, and of four or more tokens the
    first four go to top, right, bottom and left, the others being
    ignored. *)
Theorem box_expanders_spec (f : string -> val) (p q value : string) :
  In (f, p, q) [ (margin, "margin", ""); (padding, "padding", "");
                 (borderStyle, "border", "Style"); (borderColor, "border", "Color");
                 (borderWidth, "border", "Width") ] ->
  (forall v, split " " value = [v] -> f value = box p q v v v v) /\
  (forall a b, split " " value = [a; b] -> f value = box p q a b a b) /\
  (forall a b c, split " " value = [a; b; c] -> f value = box p q a b c b) /\
  (forall a b c d rest, split " " value = a :: b :: c :: d :: rest ->
     f value = box p q a b c d).
Proof.
  intros I. simpl in I.
  repeat (destruct I as [I|I]; [inversion I; subst f p q; clear I|]);
    try contradiction;
    (repeat split; intros;
     unfold margin, padding, borderStyle, borderColor, borderWidth, _explodeToFour;
     match goal with H : split _ _ = _ |- _ => rewrite H end;
     try reflexivity;
     destruct rest; reflexivity).
Qed.

Lemma box_expanders_spec_witness :
  margin "1px 2px 3px 4px 5px" = box "margin" "" "1px" "2px" "3px" "4px" /\
  borderColor "red blue" = box "border" "Color" "red" "blue" "red" "blue".
Proof.
  split.
  - destruct (box_expanders_spec margin "margin" "" "1px 2px 3px 4px 5px")
      as (_ & _ & _ & H); [simpl; tauto|].
    apply (H "1px" "2px" "3px" "4px" ["5px"]). reflexivity.
  - destruct (box_expanders_spec borderColor "border" "Color" "red blue")
      as (_ & H & _); [simpl; tauto|].
    apply H. reflexivity.
Defined.

(** ** More on the border-side expander *)

Lemma keyword_one_token (value : string) :
  In value _borderStyles -> split " " value = [value].
Proof.
  intros I. apply split_clean. unfold _borderStyles in I. simpl in I.
  repeat (destruct I as [<-|I]; [reflexivity|]). contradiction.
Qed.

(** X5. For a value of two or more tokens, [borderSide] takes the first
    three tokens as Width, Style and Color, in this order, and sets a
    property only for a token that is present and not empty: a two-token
    value leaves Color unset, a doubled or leading space leaves the
    property of the empty token unset, and tokens after the third are
    ignored. *)
Theorem borderSide_tokens (value side : string) :
  List.length (split " " value) <> 1 ->
  borderSide value (Some side) =
    VObj (present ("border" ++ side ++ "Width") (nth_error (split " " value) 0) ++
          present ("border" ++ side ++ "Style") (nth_error (split " " value) 1) ++
          present ("border" ++ side ++ "Color") (nth_error (split " " value) 2)).
Proof.
  intros L.
  assert ((array_indexOf _borderStyles value >? -1)%Z = false) as F.
  { destruct (array_indexOf _borderStyles value >? -1)%Z eqn:G; [|reflexivity].
    apply array_indexOf_In, keyword_one_token in G. rewrite G in L. now destruct L. }
  unfold borderSide. rewrite F.
  replace (Nat.eqb (List.length (split " " value)) 1) with false
    by (symmetry; now apply Nat.eqb_neq).
  unfold elem, present. cbn [interpolate].
  destruct (nth_error (split " " value) 0) as [w|];
    destruct (nth_error (split " " value) 1) as [s|];
    destruct (nth_error (split " " value) 2) as [c|];
    cbn [truthy];
    try destruct (String.eqb w ""); try destruct (String.eqb s "");
    try destruct (String.eqb c ""); cbn [negb app]; side_keys; reflexivity.
Qed.

Lemma borderSide_tokens_witness :
  borderSide "solid red" (Some "Top") =
    VObj [ (KStr "borderTopWidth", VStr "solid"); (KStr "borderTopStyle", VStr "red") ] /\
  borderSide " dashed" (Some "Left") = VObj [ (KStr "borderLeftStyle", VStr "dashed") ].
Proof.
  split.
  - apply (borderSide_tokens "solid red" "Top"). simpl. lia.
  - apply (borderSide_tokens " dashed" "Left"). simpl. lia.
Defined.

(** ** More on the border-radius expander *)

(** X6. [borderRadius] never throws: for every string it returns the four
    corner properties, each holding a string; and what follows a second
    slash is ignored. *)
Theorem borderRadius_total :
  (forall value, exists a b c d,
     borderRadius value =
       Ok (VObj [ (KStr "borderTopLeftRadius", VStr a);
                  (KStr "borderTopRightRadius", VStr b);
                  (KStr "borderBottomRightRadius", VStr c);
                  (KStr "borderBottomLeftRadius", VStr d) ])) /\
  (forall h v w, occurs "/" h = false -> occurs "/" v = false ->
     borderRadius (h ++ "/" ++ v ++ "/" ++ w) = borderRadius (h ++ "/" ++ v)).
Proof.
  split.
  - intros value. destruct (occurs "/" value) eqn:O.
    + destruct (borderRadius_slash value O) as (h & v & rest & _ & ->). eauto.
    + rewrite (borderRadius_plain value O). eauto.
  - intros h v w Hh Hv.
    assert (forall tail, occurs "/" (h ++ "/" ++ tail) = true) as O.
    { intros tail. rewrite occurs_app. simpl. now rewrite orb_true_r. }
    destruct (borderRadius_slash _ (O (v ++ "/" ++ w)%string)) as (h1 & v1 & r1 & E1 & ->).
    destruct (borderRadius_slash _ (O v)) as (h2 & v2 & r2 & E2 & ->).
    change (h ++ "/" ++ v ++ "/" ++ w)%string
      with (h ++ String "/" (v ++ String "/" w))%string in E1.
    change (h ++ "/" ++ v)%string with (h ++ String "/" v)%string in E2.
    rewrite (split_app_sep _ _ _ Hh), (split_app_sep _ _ _ Hv) in E1.
    rewrite (split_app_sep _ _ _ Hh), (split_clean _ _ Hv) in E2.
    inversion E1; inversion E2; subst. reflexivity.
Qed.

(** ** More on the unit normalizer *)

Lemma applyPX_one (v : string) :
  applyPX [v] = [v] \/
  (applyPX [v] = [(v ++ "px")%string] /\ forall u, In u _units -> ~ contains v u).
Proof.
  unfold applyPX. cbn [map].
  destruct (Nat.eqb (List.length (filter (fun u => (indexOf v u >? -1)%Z) _units)) 0) eqn:E;
    [right|now left].
  split; [reflexivity|]. intros u I C.
  rewrite filter_nil_iff in E. specialize (E u I).
  apply indexOf_found in C. congruence.
Qed.

Lemma applyPX_cons (v : string) (l : list string) :
  applyPX (v :: l) = applyPX [v] ++ applyPX l.
Proof. reflexivity. Qed.

(** X7. [applyPX] is idempotent, and every token it returns contains one
    of the units: a token with a unit is left alone, and a token that got
    "px" appended has one from then on. *)
Theorem applyPX_idempotent (values : list string) :
  applyPX (applyPX values) = applyPX values /\
  forall v, In v (applyPX values) -> exists u, In u _units /\ contains v u.
Proof.
  assert (forall v, contains (v ++ "px") "px") as P.
  { intros v. exists v, ""%string. reflexivity. }
  assert (forall v, (exists u, In u _units /\ contains v u) -> applyPX [v] = [v]) as Keep.
  { intros v (u & I & C). destruct (applyPX_one v) as [E|(_ & N)]; [exact E|].
    destruct (N u I C). }
  assert (forall v, In v (applyPX values) -> exists u, In u _units /\ contains v u) as U.
  { induction values as [|x l IH]; intros v I; [destruct I|].
    rewrite applyPX_cons in I. apply in_app_or in I. destruct I as [I|I]; [|auto].
    destruct (applyPX_one x) as [E|(E & _)]; rewrite E in I;
      destruct I as [<-|[]].
    - unfold applyPX in E. cbn [map] in E.
      destruct (Nat.eqb (List.length (filter (fun u => (indexOf x u >? -1)%Z) _units)) 0) eqn:F.
      + exfalso. inversion E as [E']. clear -E'.
        induction x as [|c x IHx]; [discriminate|]. inversion E'. auto.
      + destruct (filter (fun u => (indexOf x u >? -1)%Z) _units) as [|u us] eqn:Q;
          [discriminate|].
        assert (In u (filter (fun u => (indexOf x u >? -1)%Z) _units)) as M
            by (rewrite Q; now left).
        apply filter_In in M. destruct M as (M1 & M2).
        exists u. split; [exact M1|now apply indexOf_found].
    - exists "px". split; [simpl; tauto|apply P]. }
  split; [|exact U].
  induction values as [|x l IH]; [reflexivity|].
  rewrite applyPX_cons.
  assert (forall a b, applyPX (a ++ b) = applyPX a ++ applyPX b) as App
      by (intros; unfold applyPX; apply map_app).
  rewrite App. f_equal.
  - destruct (applyPX_one x) as [E|(E & _)]; rewrite E.
    + exact E.
    + apply Keep. exists "px". split; [simpl; tauto|apply P].
  - apply IH. intros v I. apply U. rewrite applyPX_cons. apply in_or_app. now right.
Qed.

(** ** Merging into a mapping *)

Lemma set_all_end (ps acc : props_t) :
  canon (acc ++ ps) -> lookup (KStr "__proto__") ps = None ->
  set_all (SObj acc) ps = Ok (SObj (acc ++ ps)).
Proof.
  revert acc. induction ps as [|[k x] ps IH]; intros acc C L.
  - simpl. now rewrite app_nil_r.
  - cbn [set_all]. cbn [lookup] in L.
    destruct (key_eqb_spec (KStr "__proto__") k) as [E|Hne]; [discriminate|].
    rewrite set_SObj_plain by congruence.
    rewrite (prop_set_end _ _ _ (canon_app_inv _ _ _ _ C)). cbn [bind].
    rewrite IH; [now rewrite <- app_assoc| |exact L].
    now rewrite <- app_assoc.
Qed.

Lemma canon_of_strings (ps : props_t) :
  (forall k, In k (keys ps) -> exists s, k = KStr s) -> NoDup (keys ps) -> canon ps.
Proof.
  induction ps as [|[k x] ps IH]; intros S N; [constructor|].
  simpl in *. inversion N as [|? ? N1 N2]; subst.
  constructor; [|apply IH; auto].
  apply Forall_forall. intros k' I.
  destruct (S k (or_introl eq_refl)) as (s & ->).
  destruct (S k' (or_intror I)) as (s' & ->).
  simpl. intros ->. contradiction.
Qed.

Lemma lookup_absent (k : key) (ps : props_t) (s : list key) :
  incl (keys ps) s -> ~ In k s -> lookup k ps = None.
Proof. intros I N. apply lookup_none_keys. intros H. apply N, I, H. Qed.

(** The keys of a border-side expansion: some of Width, Style, Color of
    that side, each at most once. *)
Lemma borderSide_key_set (value side : string) :
  incl (keys (own_entries (borderSide value (Some side))))
       [ KStr ("border" ++ side ++ "Width"); KStr ("border" ++ side ++ "Style");
         KStr ("border" ++ side ++ "Color") ] /\
  NoDup (keys (own_entries (borderSide value (Some side)))).
Proof.
  assert (forall a b : string, a <> b ->
            KStr ("border" ++ side ++ a) <> KStr ("border" ++ side ++ b)) as D.
  { intros a b Hab E. injection E as E.
    apply String.eqb_eq in E. rewrite !eqb_app_l in E.
    apply String.eqb_eq in E. contradiction. }
  assert (KStr ("border" ++ side ++ "Width") <> KStr ("border" ++ side ++ "Style")) as WS
      by (apply D; discriminate).
  assert (KStr ("border" ++ side ++ "Width") <> KStr ("border" ++ side ++ "Color")) as WC
      by (apply D; discriminate).
  assert (KStr ("border" ++ side ++ "Style") <> KStr ("border" ++ side ++ "Color")) as SC
      by (apply D; discriminate).
  unfold borderSide. cbn [interpolate].
  destruct (array_indexOf _borderStyles value >? -1)%Z;
    [|destruct (Nat.eqb (List.length (split " " value)) 1);
      destruct (truthy (elem (split " " value) 0));
      destruct (truthy (elem (split " " value) 1));
      destruct (truthy (elem (split " " value) 2))];
    side_keys; cbn [own_entries keys map fst];
    (split;
     [ intros k I; simpl in I; simpl; tauto
     | repeat constructor; simpl; intuition congruence ]).
Qed.

Lemma NoDup_app_disjoint (l1 l2 s1 s2 : list key) :
  NoDup l1 -> NoDup l2 -> incl l1 s1 -> incl l2 s2 ->
  (forall k, In k s1 -> In k s2 -> False) -> NoDup (l1 ++ l2).
Proof.
  intros N1 N2 I1 I2 D. induction l1 as [|k l1 IH]; [exact N2|].
  inversion N1 as [|? ? A B]; subst. simpl. constructor.
  - intros I. apply in_app_or in I. destruct I as [I|I]; [contradiction|].
    apply (D k); [apply I1; now left|apply I2, I].
  - apply IH; [exact B|]. intros x Hx. apply I1. now right.
Qed.

Lemma set_all_app (p1 p2 : props_t) (st : store) :
  set_all st (p1 ++ p2) = (t <- set_all st p1 ;; set_all t p2).
Proof.
  revert st. induction p1 as [|[k x] p1 IH]; intros st; [reflexivity|].
  cbn [app set_all]. destruct (set st k x); cbn [bind]; auto.
Qed.

Lemma borderSide_mapping (value : string) (side : option string) :
  borderSide value side = VObj (own_entries (borderSide value side)).
Proof.
  unfold borderSide. destruct (array_indexOf _borderStyles value >? -1)%Z; reflexivity.
Qed.

(** ** The per-side shorthands together *)

(** X8. [borderLeft], [borderRight], [borderTop] and [borderBottom] write
    only the three properties of their own side, so a mapping that holds
    all four, each with its own value, is built into the four expansions
    one after the other: none overwrites a property of another, and
    [build] never fails on it. *)
Theorem border_sides_compose (a b c d : string) :
  build (VObj [ (KStr "borderLeft", VStr a); (KStr "borderRight", VStr b);
                (KStr "borderTop", VStr c); (KStr "borderBottom", VStr d) ]) =
    Ok (VObj (own_entries (borderLeft a) ++ own_entries (borderRight b) ++
              own_entries (borderTop c) ++ own_entries (borderBottom d))).
Proof.
  assert (build (VObj [ (KStr "borderLeft", VStr a); (KStr "borderRight", VStr b);
                        (KStr "borderTop", VStr c); (KStr "borderBottom", VStr d) ]) =
          (t <- (t <- set_all (SObj []) (own_entries (borderLeft a)) ;;
                 t <- set_all t (own_entries (borderRight b)) ;;
                 t <- set_all t (own_entries (borderTop c)) ;;
                 t <- set_all t (own_entries (borderBottom d)) ;;
                 Ok t) ;;
           Ok (finish t))) as -> by reflexivity.
  unfold borderLeft, borderRight, borderTop, borderBottom.
  destruct (borderSide_key_set a "Left") as (Ia & Na).
  destruct (borderSide_key_set b "Right") as (Ib & Nb).
  destruct (borderSide_key_set c "Top") as (Ic & Nc).
  destruct (borderSide_key_set d "Bottom") as (Id & Nd).
  set (La := own_entries (borderSide a (Some "Left"))) in *.
  set (Lb := own_entries (borderSide b (Some "Right"))) in *.
  set (Lc := own_entries (borderSide c (Some "Top"))) in *.
  set (Ld := own_entries (borderSide d (Some "Bottom"))) in *.
  assert (set_all (SObj []) (La ++ Lb ++ Lc ++ Ld) = Ok (SObj (La ++ Lb ++ Lc ++ Ld))) as S.
  { apply (set_all_end (La ++ Lb ++ Lc ++ Ld) []).
    - cbn [app]. apply canon_of_strings.
      + intros k I. rewrite !keys_app in I.
        repeat (apply in_app_or in I; destruct I as [I|I]);
          [apply Ia in I|apply Ib in I|apply Ic in I|apply Id in I];
          simpl in I; intuition (subst; eauto).
      + rewrite !keys_app.
        eapply NoDup_app_disjoint; [exact Na| |exact Ia|apply incl_refl|].
        * eapply NoDup_app_disjoint; [exact Nb| |exact Ib|apply incl_refl|].
          -- eapply NoDup_app_disjoint; [exact Nc|exact Nd|exact Ic|exact Id|].
             intros k I1 I2. simpl in I1, I2. intuition (subst; discriminate).
          -- intros k I1 I2. apply in_app_or in I2.
             destruct I2 as [I2|I2]; [apply Ic in I2|apply Id in I2];
               simpl in I1, I2; intuition (subst; discriminate).
        * intros k I1 I2.
          repeat (apply in_app_or in I2; destruct I2 as [I2|I2]);
            [apply Ib in I2|apply Ic in I2|apply Id in I2];
            simpl in I1, I2; intuition (subst; discriminate).
    - apply lookup_absent with
        (s := [ KStr "borderLeftWidth"; KStr "borderLeftStyle"; KStr "borderLeftColor";
                KStr "borderRightWidth"; KStr "borderRightStyle"; KStr "borderRightColor";
                KStr "borderTopWidth"; KStr "borderTopStyle"; KStr "borderTopColor";
                KStr "borderBottomWidth"; KStr "borderBottomStyle";
                KStr "borderBottomColor" ]).
      + intros k I. rewrite !keys_app in I.
        repeat (apply in_app_or in I; destruct I as [I|I]);
          [apply Ia in I|apply Ib in I|apply Ic in I|apply Id in I];
          simpl in I; simpl; tauto.
      + simpl. intuition discriminate. }
  rewrite set_all_app in S.
  destruct (set_all (SObj []) La) as [t1| |]; cbn [bind] in *; try discriminate S.
  rewrite set_all_app in S.
  destruct (set_all t1 Lb) as [t2| |]; cbn [bind] in *; try discriminate S.
  rewrite set_all_app in S.
  destruct (set_all t2 Lc) as [t3| |]; cbn [bind] in *; try discriminate S.
  rewrite S. reflexivity.
Qed.

(** ** A shorthand on its own *)

Ltac side_cases value :=
  unfold borderLeft, borderRight, borderTop, borderBottom, border, borderSide;
  (destruct (array_indexOf _borderStyles value >? -1)%Z; [reflexivity|]);
  destruct (Nat.eqb (List.length (split " " value)) 1);
  destruct (truthy (elem (split " " value) 0));
  destruct (truthy (elem (split " " value) 1));
  destruct (truthy (elem (split " " value) 2)); reflexivity.

(** X9. A mapping that holds one of the eleven shorthands and nothing
    else is built, for every string value whatsoever (empty, with doubled
    spaces, with too many tokens), into exactly what the expander of that
    name returns: [build] does not fail on it and adds or drops
    nothing. *)
Theorem build_lone_shorthand (v : string) :
  build (VObj [(KStr "margin", VStr v)]) = Ok (margin v) /\
  build (VObj [(KStr "padding", VStr v)]) = Ok (padding v) /\
  build (VObj [(KStr "borderRadius", VStr v)]) = borderRadius v /\
  build (VObj [(KStr "borderStyle", VStr v)]) = Ok (borderStyle v) /\
  build (VObj [(KStr "borderColor", VStr v)]) = Ok (borderColor v) /\
  build (VObj [(KStr "borderWidth", VStr v)]) = Ok (borderWidth v) /\
  build (VObj [(KStr "borderLeft", VStr v)]) = Ok (borderLeft v) /\
  build (VObj [(KStr "borderRight", VStr v)]) = Ok (borderRight v) /\
  build (VObj [(KStr "borderTop", VStr v)]) = Ok (borderTop v) /\
  build (VObj [(KStr "borderBottom", VStr v)]) = Ok (borderBottom v) /\
  build (VObj [(KStr "border", VStr v)]) = border v.
Proof.
  assert (forall name f, member (KStr name) = Some (fun x => Ok (f x)) ->
            String.eqb "length" name = false ->
            build (VObj [(KStr name, VStr v)]) =
              (t <- (t <- assign (SObj []) (f v) ;; Ok t) ;; Ok (finish t))) as Lone.
  { intros name f M L. cbn [build length_defined lookup key_eqb]. rewrite L.
    cbn [bind visit_props visit]. rewrite M. reflexivity. }
  repeat split; try reflexivity.
  - assert (build (VObj [(KStr "borderRadius", VStr v)]) =
            (t <- (t <- (r <- borderRadius v ;; assign (SObj []) r) ;; Ok t) ;;
             Ok (finish t))) as -> by reflexivity.
    destruct (occurs "/" v) eqn:O.
    + destruct (borderRadius_slash v O) as (h & w & rest & _ & ->). reflexivity.
    + rewrite (borderRadius_plain v O). reflexivity.
  - rewrite (Lone "borderLeft" borderLeft eq_refl eq_refl). side_cases v.
  - rewrite (Lone "borderRight" borderRight eq_refl eq_refl). side_cases v.
  - rewrite (Lone "borderTop" borderTop eq_refl eq_refl). side_cases v.
  - rewrite (Lone "borderBottom" borderBottom eq_refl eq_refl). side_cases v.
  - assert (build (VObj [(KStr "border", VStr v)]) =
            (t <- (t <- (r <- border v ;; assign (SObj []) r) ;; Ok t) ;;
             Ok (finish t))) as -> by reflexivity.
    side_cases v.
Qed.

(** ** A shorthand beside one of its longhands *)

(** X10. The order of the keys decides between a shorthand and one of its
    longhands: [marginTop] written after [margin] replaces the top value
    of the expansion and keeps the place the expansion gave it, whereas
    [marginTop] written before [margin] is overwritten by the
    expansion. *)
Theorem shorthand_longhand_order (s t : string) :
  build (VObj [(KStr "margin", VStr s); (KStr "marginTop", VStr t)]) =
    Ok (VObj [ (KStr "marginTop", VStr t);
               (KStr "marginRight", VStr (slot s 1));
               (KStr "marginBottom", VStr (slot s 2));
               (KStr "marginLeft", VStr (slot s 3)) ]) /\
  build (VObj [(KStr "marginTop", VStr t); (KStr "margin", VStr s)]) = Ok (margin s).
Proof.
  destruct (explodeToFour_slots s) as (_ & a & b & c & d & r & E).
  split.
  - assert (build (VObj [(KStr "margin", VStr s); (KStr "marginTop", VStr t)]) =
            (u <- (u <- assign (SObj []) (margin s) ;;
                   u <- set u (KStr "marginTop") (VStr t) ;; Ok u) ;;
             Ok (finish u))) as -> by reflexivity.
    unfold margin, slot. rewrite E. reflexivity.
  - assert (build (VObj [(KStr "marginTop", VStr t); (KStr "margin", VStr s)]) =
            (u <- (u <- set (SObj []) (KStr "marginTop") (VStr t) ;;
                   u <- assign u (margin s) ;; Ok u) ;;
             Ok (finish u))) as -> by reflexivity.
    unfold margin. rewrite E. reflexivity.
Qed.

(** ** Null values *)

Lemma visit_props_stuck (props : props_t) (k : key) (x : val) :
  In (k, x) props ->
  (forall st st', visit build st k x <> Ok st') ->
  forall st st', visit_props build props st <> Ok st'.
Proof.
  intros I N. induction props as [|[k' x'] props IH]; [destruct I|].
  intros st st' H. cbn [visit_props] in H. bind_inv H.
  destruct I as [E|I].
  - inversion E; subst. exact (N _ _ Ha).
  - exact (IH I _ _ H).
Qed.

Lemma item_entries_In (items : list (option val)) (y : val) (b : nat) :
  In (Some y) items -> exists i, In (KIdx i, y) (item_entries b items).
Proof.
  revert b. induction items as [|[x|] items IH]; intros b I; [destruct I| |].
  - destruct I as [E|I].
    + inversion E; subst. exists b. now left.
    + destruct (IH (S b) I) as (i & Hi). exists i. now right.
  - destruct I as [E|I]; [discriminate|]. exact (IH (S b) I).
Qed.

Lemma map_build_stuck (items : list (option val)) (y : val) :
  In (Some y) items -> (forall out, build y <> Ok out) ->
  forall ys, map_build build items <> Ok ys.
Proof.
  intros I N. induction items as [|[x|] items IH]; [destruct I| |];
    intros ys H; cbn [map_build] in H.
  - bind_inv H. bind_inv H. destruct I as [E|I].
    + inversion E; subst. exact (N _ Ha).
    + exact (IH I _ Ha0).
  - bind_inv H. destruct I as [E|I]; [discriminate|]. exact (IH I _ Ha).
Qed.

(** X11. A [null] anywhere in the input, under a key of a mapping or as
    an element of an array, at any depth, makes [build] fail: it never
    returns a result for such an input. *)
Theorem build_null_never_returns (v : val) :
  holds_null v -> forall out, build v <> Ok out.
Proof.
  intros H.
  assert ((forall out, build v <> Ok out) /\
          (forall st k st', visit build st k v <> Ok st')) as G; [|exact (proj1 G)].
  induction H as [|props k x I H IH|items named x I H IH].
  - split; intros; discriminate.
  - assert (forall out, build (VObj props) <> Ok out) as B.
    { intros out E. rewrite build_unfold in E. bind_inv E. bind_inv E.
      exact (visit_props_stuck props k x I (fun st st' => proj2 IH st k st') _ _ Ha0). }
    split; [exact B|].
    intros st k' st' E. cbn [visit] in E. bind_inv E. destruct a.
    + bind_inv E. unfold call_map in Ha0.
      destruct (find_map (VObj props)); discriminate.
    + bind_inv E. exact (B _ Ha0).
  - split.
    + intros out E. rewrite build_unfold in E. bind_inv E. bind_inv E.
      cbn [own_entries] in Ha0.
      destruct (item_entries_In items x 0 I) as (i & Hi).
      refine (visit_props_stuck _ (KIdx i) x _ (fun st st' => proj2 IH st (KIdx i) st') _ _ Ha0).
      apply in_or_app. now left.
    + intros st k' st' E. cbn [visit length_defined bind] in E. bind_inv E.
      unfold call_map in Ha. destruct (find_map (VArr items named)); try discriminate.
      bind_inv Ha. exact (map_build_stuck items x I (proj1 IH) _ Ha0).
Qed.

Lemma build_null_never_returns_witness :
  build (VObj [ (KStr "margin", VStr "1px");
                (KStr "hover", VObj [(KStr "list", dense [VNum 1; VNull])]) ]) <>
    Ok (VObj []).
Proof.
  apply build_null_never_returns.
  apply null_in_mapping with (k := KStr "hover")
                             (x := VObj [(KStr "list", dense [VNum 1; VNull])]);
    [simpl; tauto|].
  apply null_in_mapping with (k := KStr "list") (x := dense [VNum 1; VNull]);
    [simpl; tauto|].
  apply null_in_array with (x := VNull); [simpl; tauto|constructor].
Defined.

(** ** The keys and strings of a result *)

Lemma stored_string (x : val) (s : string) : stored x = Ok (VStr s) -> x = VStr s.
Proof.
  destruct x; cbn [stored]; intros H; try discriminate.
  - now inversion H.
  - cbn [length_defined bind] in H.
    unfold call_map in H. destruct (find_map (VArr items named)); try discriminate.
    bind_inv H. discriminate.
  - bind_inv H. destruct a.
    + unfold call_map in H. destruct (find_map (VObj props)); discriminate.
    + apply build_result in H. destruct H as ([|] & H); discriminate.
Qed.

(** X12. [build] invents no key: every own key of its result is an own
    key of the input or one of the keys an expansion writes (an index, or
    one of the longhand names). *)
Theorem build_keys_origin (styles out : val) (k : key) :
  build styles = Ok out -> In k (keys (own_entries out)) ->
  In k (keys (own_entries styles)) \/ expansion_key k = true.
Proof.
  intros H I.
  destruct (own out k) as [y|] eqn:G.
  - destruct (build_provenance _ _ _ _ H G)
      as [(x & Ix & _)|(k' & s & m & r & _ & M & R & Ir)].
    + left. change k with (fst (k, x)). now apply in_map.
    + right. pose proof (member_writes _ _ _ _ M R) as F.
      rewrite forallb_forall in F. specialize (F _ Ir).
      unfold expansion_entry in F. cbn [fst] in F.
      apply andb_prop in F. tauto.
  - exfalso. unfold own in G. apply lookup_none_keys in G. contradiction.
Qed.

Lemma build_keys_origin_witness :
  In (KStr "paddingTop") (keys [(KStr "padding", VStr "1px"); (KStr "color", VStr "red")]) \/
  expansion_key (KStr "paddingTop") = true.
Proof.
  apply (build_keys_origin
           (VObj [(KStr "padding", VStr "1px"); (KStr "color", VStr "red")])
           (VObj [ (KStr "paddingTop", VStr "1px"); (KStr "paddingRight", VStr "1px");
                   (KStr "paddingBottom", VStr "1px"); (KStr "paddingLeft", VStr "1px");
                   (KStr "color", VStr "red") ])).
  - reflexivity.
  - simpl. tauto.
Defined.

(** ** Mappings without shorthands *)

Lemma traverse_keys (props vs : props_t) :
  traverse entry_stored props = Ok vs -> keys vs = keys props.
Proof.
  revert vs. induction props as [|[k x] props IH]; intros vs H; cbn [traverse] in H.
  - now inversion H.
  - bind_inv H. bind_inv H. inversion H; subst.
    unfold entry_stored in Ha. cbn [fst snd] in Ha. bind_inv Ha. inversion Ha; subst.
    simpl. now rewrite (IH _ Ha0).
Qed.

Lemma visit_props_plain (props acc : props_t) :
  canon (acc ++ props) ->
  lookup (KStr "__proto__") props = None ->
  (forall k x, In (k, x) props -> member k = None \/ (forall s, x <> VStr s)) ->
  visit_props build props (SObj acc) =
    (vs <- traverse entry_stored props ;; Ok (SObj (acc ++ vs))).
Proof.
  revert acc. induction props as [|[k x] props IH]; intros acc C L N.
  - simpl. now rewrite app_nil_r.
  - cbn [visit_props traverse]. unfold entry_stored at 1. cbn [fst snd].
    rewrite (visit_stored _ _ _ (N k x (or_introl eq_refl))).
    destruct (stored x) as [y| |]; cbn [bind]; try reflexivity.
    cbn [lookup] in L.
    destruct (key_eqb_spec (KStr "__proto__") k) as [E|Hne]; [discriminate|].
    rewrite set_SObj_plain by congruence.
    rewrite (prop_set_end _ _ _ (canon_app_inv _ _ _ _ C)). cbn [bind].
    rewrite IH.
    + destruct (traverse entry_stored props); cbn [bind]; try reflexivity.
      now rewrite <- app_assoc.
    + eapply canon_keys; [|exact C].
      rewrite <- app_assoc. rewrite !keys_app. reflexivity.
    + exact L.
    + intros k' x' I. apply N. now right.
Qed.

(** X14. On a mapping in which no string stands under a key that names a
    member of the builder (and that has no [length] and no own
    [__proto__]), [build] works property by property: the result has the
    same keys in the same order, each holding what the loop stores for
    the input's value, and [build] fails exactly when one of the values
    does, with the failure of the first such value. *)
Theorem build_plain_mapping (props : props_t) :
  canon props ->
  lookup (KStr "__proto__") props = None ->
  length_defined (VObj props) = Ok false ->
  (forall k x, In (k, x) props -> member k = None \/ (forall s, x <> VStr s)) ->
  build (VObj props) = (vs <- traverse entry_stored props ;; Ok (VObj vs)) /\
  (forall vs, traverse entry_stored props = Ok vs -> keys vs = keys props).
Proof.
  intros C P L N. split; [|apply traverse_keys].
  rewrite build_unfold, L. cbn [bind fresh_store own_entries].
  rewrite (visit_props_plain props [] C P N).
  destruct (traverse entry_stored props); reflexivity.
Qed.

Lemma build_plain_mapping_witness :
  build (VObj [ (KStr "color", VStr "red"); (KStr "zIndex", VNum 3);
                (KStr "hover", VObj [(KStr "margin", VStr "0")]);
                (KStr "onPress", VFun (Host 1)) ]) =
    Ok (VObj [ (KStr "color", VStr "red"); (KStr "zIndex", VNum 3);
               (KStr "hover", VObj [ (KStr "marginTop", VStr "0");
                                     (KStr "marginRight", VStr "0");
                                     (KStr "marginBottom", VStr "0");
                                     (KStr "marginLeft", VStr "0") ]);
               (KStr "onPress", VFun (Wrapped (Host 1))) ]).
Proof.
  destruct (build_plain_mapping
              [ (KStr "color", VStr "red"); (KStr "zIndex", VNum 3);
                (KStr "hover", VObj [(KStr "margin", VStr "0")]);
                (KStr "onPress", VFun (Host 1)) ]) as (E & _).
  - apply canon_of_strings.
    + intros k I. simpl in I. intuition (subst; eauto).
    + apply distinct_NoDup. reflexivity.
  - reflexivity.
  - reflexivity.
  - intros k x I. simpl in I.
    repeat (destruct I as [I|I];
            [inversion I; subst; clear I;
             first [left; reflexivity | right; intros; discriminate]|]).
    contradiction.
  - rewrite E. reflexivity.
Defined.

(** ** Keys that expansions leave alone *)

Lemma set_keeps (acc : props_t) (k' : key) (v : val) (st' : store) (k : key) (y : val) :
  set (SObj acc) k' v = Ok st' -> k' <> k -> lookup k acc = Some y ->
  exists acc', st' = SObj acc' /\ lookup k acc' = Some y.
Proof.
  intros H Hne G. destruct (key_eqb_spec k' (KStr "__proto__")) as [->|P].
  - unfold set in H. cbn [String.eqb Ascii.eqb Bool.eqb] in H.
    destruct v; inversion H; subst; eauto.
  - rewrite set_SObj_plain in H by assumption. inversion H; subst.
    eexists. split; [reflexivity|].
    rewrite lookup_prop_set, (key_eqb_neq _ _ (not_eq_sym Hne)). exact G.
Qed.

Lemma set_all_keeps (entries acc : props_t) (st' : store) (k : key) (y : val) :
  set_all (SObj acc) entries = Ok st' -> ~ In k (keys entries) ->
  lookup k acc = Some y ->
  exists acc', st' = SObj acc' /\ lookup k acc' = Some y.
Proof.
  revert acc. induction entries as [|[k' v] entries IH]; intros acc H N G.
  - inversion H; subst. eauto.
  - cbn [set_all] in H. bind_inv H. simpl in N.
    destruct (set_keeps acc k' v a k y Ha) as (acc1 & -> & G1); [tauto|exact G|].
    apply (IH acc1 H); [tauto|exact G1].
Qed.

Lemma visit_keeps (acc : props_t) (k' : key) (x : val) (st' : store) (k : key) (y : val) :
  visit build (SObj acc) k' x = Ok st' -> k' <> k -> expansion_key k = false ->
  lookup k acc = Some y ->
  exists acc', st' = SObj acc' /\ lookup k acc' = Some y.
Proof.
  intros H Hne X G.
  assert (member k' = None \/ (forall s, x <> VStr s) ->
          exists acc', st' = SObj acc' /\ lookup k acc' = Some y) as Plain.
  { intros N. rewrite (visit_stored _ _ _ N) in H. bind_inv H.
    now apply (set_keeps acc k' a st' k y). }
  destruct (member k') as [m|] eqn:M; [|auto].
  destruct x; try (apply Plain; right; intros; discriminate).
  cbn [visit] in H. rewrite M in H. bind_inv H.
  apply (set_all_keeps (own_entries a) acc st' k y H); [|exact G].
  intros I. pose proof (member_writes _ _ _ _ M Ha) as F.
  rewrite forallb_forall in F. apply in_map_iff in I. destruct I as ([k0 v0] & E & I).
  simpl in E. subst k0. specialize (F _ I).
  unfold expansion_entry in F. cbn [fst] in F. apply andb_prop in F.
  destruct F as (F & _). congruence.
Qed.

Lemma visit_props_keeps (props acc : props_t) (st' : store) (k : key) (y : val) :
  visit_props build props (SObj acc) = Ok st' -> ~ In k (keys props) ->
  expansion_key k = false -> lookup k acc = Some y ->
  exists acc', st' = SObj acc' /\ lookup k acc' = Some y.
Proof.
  revert acc. induction props as [|[k' x] props IH]; intros acc H N X G.
  - inversion H; subst. eauto.
  - cbn [visit_props] in H. bind_inv H. simpl in N.
    destruct (visit_keeps acc k' x a k y Ha) as (acc1 & -> & G1); [tauto|exact X|exact G|].
    apply (IH acc1 H); [tauto|exact X|exact G1].
Qed.

(** X15. Expansions leave the other keys alone: in a mapping (without a
    [length], no key twice), a value that is not dispatched and stands
    under a key that is neither a longhand name nor [__proto__] is found
    in the result under its key, as what the loop stores for it,
    whatever shorthands stand before or after it. *)
Theorem build_keeps_other_keys (props : props_t) (out : val) (k : key) (x : val) :
  length_defined (VObj props) = Ok false ->
  NoDup (keys props) ->
  In (k, x) props ->
  expansion_key k = false -> k <> KStr "__proto__" ->
  member k = None \/ (forall s, x <> VStr s) ->
  build (VObj props) = Ok out ->
  exists y, stored x = Ok y /\ own out k = Some y.
Proof.
  intros L N I X P D H.
  rewrite build_unfold, L in H. cbn [bind fresh_store own_entries] in H.
  apply bind_ok in H. destruct H as (t & V & H). inversion H; subst. clear H.
  apply in_split in I. destruct I as (before_k & after_k & ->).
  rewrite visit_props_app in V.
  apply bind_ok in V. destruct V as (t1 & V1 & V).
  destruct (visit_props_SObj _ _ _ V1) as (acc1 & ->).
  cbn [visit_props] in V.
  apply bind_ok in V. destruct V as (t2 & V2 & V).
  rewrite (visit_stored _ _ _ D) in V2.
  apply bind_ok in V2. destruct V2 as (y & Sy & V2).
  rewrite set_SObj_plain in V2 by assumption. inversion V2; subst.
  exists y. split; [assumption|].
  assert (~ In k (keys after_k)) as F.
  { rewrite keys_app in N. apply NoDup_remove_2 in N.
    intros J. apply N. apply in_or_app. now right. }
  destruct (visit_props_keeps after_k _ t k y V F X) as (acc' & -> & G).
  - now rewrite lookup_prop_set, key_eqb_refl.
  - exact G.
Qed.

Lemma build_keeps_other_keys_witness :
  exists y, stored (VNum 2) = Ok y /\
            own (VObj [ (KStr "marginTop", VStr "1px"); (KStr "marginRight", VStr "1px");
                        (KStr "marginBottom", VStr "1px"); (KStr "marginLeft", VStr "1px");
                        (KStr "opacity", VNum 2);
                        (KStr "paddingTop", VStr "3px"); (KStr "paddingRight", VStr "3px");
                        (KStr "paddingBottom", VStr "3px"); (KStr "paddingLeft", VStr "3px") ])
                (KStr "opacity") = Some y.
Proof.
  apply (build_keeps_other_keys
           [ (KStr "margin", VStr "1px"); (KStr "opacity", VNum 2);
             (KStr "padding", VStr "3px") ]).
  - reflexivity.
  - apply distinct_NoDup. reflexivity.
  - simpl. tauto.
  - reflexivity.
  - discriminate.
  - right. intros. discriminate.
  - reflexivity.
Defined.

(** ** Array values *)

Lemma map_build_slots (items ys : list (option val)) :
  map_build build items = Ok ys ->
  List.length ys = List.length items /\
  forall i,
    (nth_error items i = Some None -> nth_error ys i = Some None) /\
    (forall y, nth_error items i = Some (Some y) ->
       exists y', nth_error ys i = Some (Some y') /\ build y = Ok y').
Proof.
  revert ys. induction items as [|[x|] items IH]; intros ys H; cbn [map_build] in H.
  - inversion H; subst. split; [reflexivity|]. intros [|i]; split; intros; discriminate.
  - apply bind_ok in H. destruct H as (x' & Bx & H).
    apply bind_ok in H. destruct H as (ys' & M & H). inversion H; subst.
    destruct (IH _ M) as (Len & Sl). split; [simpl; congruence|].
    intros [|i]; simpl.
    + split; [discriminate|]. intros y E. inversion E; subst. eauto.
    + apply Sl.
  - apply bind_ok in H. destruct H as (ys' & M & H). inversion H; subst.
    destruct (IH _ M) as (Len & Sl). split; [simpl; congruence|].
    intros [|i]; simpl.
    + split; [reflexivity|discriminate].
    + apply Sl.
Qed.

Lemma traverse_build_strings (l : list string) :
  traverse build (map VStr l) = Ok (map build_string l).
Proof. induction l as [|s l IH]; simpl; [reflexivity|now rewrite IH]. Qed.

(** X17. A string inside an array value is not kept as a string: under
    any key other than [length] and [__proto__], an array of strings is
    built into the array of the arrays of their characters. *)
Theorem array_of_strings_exploded (k : key) (l : list string) :
  k <> KStr "length" -> k <> KStr "__proto__" ->
  build (VObj [(k, dense (map VStr l))]) =
    Ok (VObj [(k, dense (map (fun s => dense (map VStr (chars s))) l))]).
Proof.
  intros L P. cbn [build length_defined lookup].
  rewrite (key_eqb_neq _ _ (not_eq_sym L)). cbn [bind visit_props].
  rewrite visit_stored by (right; intros s E; discriminate E).
  unfold dense. cbn [stored length_defined bind].
  unfold call_map, find_map. cbn [lookup].
  rewrite map_build_dense, traverse_build_strings. cbn [bind].
  rewrite set_SObj_plain by assumption. cbn [bind finish prop_set].
  unfold build_string, dense. rewrite !map_map. now destruct k.
Qed.

Lemma array_of_strings_exploded_witness :
  build (VObj [(KStr "fontFamily", dense [VStr "Arial"; VStr "serif"])]) =
    Ok (VObj [(KStr "fontFamily",
               dense [ dense [VStr "A"; VStr "r"; VStr "i"; VStr "a"; VStr "l"];
                       dense [VStr "s"; VStr "e"; VStr "r"; VStr "i"; VStr "f"] ])]).
Proof.
  apply (array_of_strings_exploded (KStr "fontFamily") ["Arial"; "serif"]);
    discriminate.
Defined.

(** ** A numeric length *)

(** X18. A mapping whose only property is a numeric [length] is taken for
    an array: [build] returns an array of that many holes when the number
    is an array length (0 to 2^32 - 1), and throws a RangeError
    otherwise. *)
Theorem build_numeric_length (z : Z) :
  ((0 <= z <= 4294967295)%Z ->
   build (VObj [(KStr "length", VNum z)]) = Ok (VArr (repeat None (Z.to_nat z)) [])) /\
  ((z < 0 \/ 4294967295 < z)%Z ->
   build (VObj [(KStr "length", VNum z)]) = Throw RangeError).
Proof.
  split; intros H; cbn [build length_defined lookup key_eqb String.eqb Ascii.eqb
                        Bool.eqb bind visit_props visit set to_length].
  - replace ((0 <=? z)%Z && (z <=? 4294967295)%Z) with true
      by (symmetry; apply andb_true_intro; split; apply Z.leb_le; lia).
    cbn [bind finish]. unfold resize. cbn [firstn List.length].
    now rewrite !Nat.sub_0_r, firstn_nil.
  - replace ((0 <=? z)%Z && (z <=? 4294967295)%Z) with false; [reflexivity|].
    symmetry. apply andb_false_iff.
    destruct H; [left|right]; apply Z.leb_gt; lia.
Qed.

Lemma build_numeric_length_witness :
  build (VObj [(KStr "length", VNum 3)]) = Ok (VArr [None; None; None] []) /\
  build (VObj [(KStr "length", VNum (-1))]) = Throw RangeError.
Proof.
  split.
  - apply (proj1 (build_numeric_length 3)). lia.
  - apply (proj2 (build_numeric_length (-1))). lia.
Defined.

(** * The entries of a mapping *)

(** ** The last assignment to a key *)

Lemma visit_last (acc : props_t) (k : key) (x : val) (st' : store) (n : key) (y : val) :
  visit build (SObj acc) k x = Ok st' -> mem_key n (written k x) = false ->
  lookup n acc = Some y ->
  exists acc', st' = SObj acc' /\ lookup n acc' = Some y.
Proof.
  intros H W G.
  assert (~ In n (written k x)) as W'
      by (intros I; apply mem_key_In in I; congruence).
  assert (member k = None \/ (forall s, x <> VStr s) ->
          exists acc', st' = SObj acc' /\ lookup n acc' = Some y) as Plain.
  { intros N. rewrite (visit_stored _ _ _ N) in H.
    apply bind_ok in H. destruct H as (r & _ & H).
    apply (set_keeps acc k r st' n y H); [|exact G].
    intros ->. apply W'. unfold written.
    destruct x; try (now left).
    destruct N as [-> | N]; [now left|now destruct (N s)]. }
  destruct (member k) as [m|] eqn:M; [|auto].
  destruct x; try (apply Plain; right; intros; discriminate).
  cbn [visit] in H. rewrite M in H.
  apply bind_ok in H. destruct H as (r & R & H).
  apply (set_all_keeps (own_entries r) acc st' n y H); [|exact G].
  unfold written in W'. now rewrite M, R in W'.
Qed.

(** What stands under a key after one round of the loop is still there
    at the end when no later round assigns that key. *)
Lemma visit_props_last (post acc : props_t) (st' : store) (n : key) (y : val) :
  visit_props build post (SObj acc) = Ok st' -> overwrites n post = false ->
  lookup n acc = Some y ->
  exists acc', st' = SObj acc' /\ lookup n acc' = Some y.
Proof.
  revert acc. induction post as [|[k x] post IH]; intros acc H W G.
  - inversion H; subst. eauto.
  - cbn [visit_props] in H. apply bind_ok in H. destruct H as (t & V & H).
    unfold overwrites in W. cbn [existsb fst snd] in W.
    apply orb_false_iff in W. destruct W as (W1 & W2).
    destruct (visit_last acc k x t n y V W1 G) as (acc1 & -> & G1).
    exact (IH acc1 H W2 G1).
Qed.

Lemma set_all_writes (entries acc : props_t) (st' : store) (n : key) (x : val) :
  set_all (SObj acc) entries = Ok st' -> NoDup (keys entries) ->
  ~ In (KStr "__proto__") (keys entries) -> In (n, x) entries ->
  exists acc', st' = SObj acc' /\ lookup n acc' = Some x.
Proof.
  revert acc. induction entries as [|[k v] entries IH]; intros acc H N P I; [destruct I|].
  cbn [set_all] in H. cbn [keys map fst] in N, P.
  rewrite set_SObj_plain in H by (intros ->; apply P; now left).
  cbn [bind] in H. inversion N as [|? ? N1 N2]; subst.
  destruct I as [E|I].
  - inversion E; subst.
    apply (set_all_keeps entries _ st' n x H N1).
    now rewrite lookup_prop_set, key_eqb_refl.
  - apply (IH _ H N2); [|exact I]. intros J. apply P. now right.
Qed.

Lemma plain_entries_no_proto (entries : props_t) :
  forallb expansion_entry entries = true -> ~ In (KStr "__proto__") (keys entries).
Proof.
  intros F I. apply in_map_iff in I. destruct I as ([k v] & E & I).
  cbn [fst] in E. subst k. rewrite forallb_forall in F. specialize (F _ I).
  unfold expansion_entry in F. cbn [fst] in F. apply andb_prop in F.
  destruct (expansion_key_free _ (proj1 F)) as (_ & _ & _ & P). now apply P.
Qed.

(** The loop of [build] on a mapping, cut at one of its properties. *)
Lemma build_split (pre post : props_t) (k : key) (x : val) (out : val) :
  length_defined (VObj (pre ++ (k, x) :: post)) = Ok false ->
  build (VObj (pre ++ (k, x) :: post)) = Ok out ->
  exists acc1 t2 acc3,
    visit_props build pre (SObj []) = Ok (SObj acc1) /\
    visit build (SObj acc1) k x = Ok t2 /\
    visit_props build post t2 = Ok (SObj acc3) /\
    out = VObj acc3.
Proof.
  intros L H. rewrite build_unfold, L in H. cbn [bind fresh_store own_entries] in H.
  apply bind_ok in H. destruct H as (t & V & H). inversion H; subst. clear H.
  rewrite visit_props_app in V.
  apply bind_ok in V. destruct V as (t1 & V1 & V).
  destruct (visit_props_SObj _ _ _ V1) as (acc1 & ->).
  cbn [visit_props] in V.
  apply bind_ok in V. destruct V as (t2 & V2 & V).
  destruct (visit_SObj _ _ _ _ V2) as (acc2 & ->).
  destruct (visit_props_SObj _ _ _ V) as (acc3 & ->).
  exists acc1, (SObj acc2), acc3. auto.
Qed.

(** A value that is not dispatched is found under its key, as what the
    loop stores for it, unless a later property assigns that key. *)
Lemma build_entry_kept (pre post : props_t) (k : key) (x : val) (out : val) :
  length_defined (VObj (pre ++ (k, x) :: post)) = Ok false ->
  build (VObj (pre ++ (k, x) :: post)) = Ok out ->
  member k = None \/ (forall s, x <> VStr s) ->
  k <> KStr "__proto__" -> overwrites k post = false ->
  exists y, stored x = Ok y /\ own out k = Some y.
Proof.
  intros L H D P W.
  destruct (build_split pre post k x out L H) as (acc1 & t2 & acc3 & _ & V2 & V3 & ->).
  rewrite (visit_stored _ _ _ D) in V2.
  apply bind_ok in V2. destruct V2 as (y & Sy & V2).
  rewrite set_SObj_plain in V2 by assumption. inversion V2; subst.
  exists y. split; [assumption|].
  destruct (visit_props_last post _ _ k y V3 W) as (acc' & E & G).
  - now rewrite lookup_prop_set, key_eqb_refl.
  - inversion E; subst. exact G.
Qed.

(** A string under a key that names a member is replaced by what the
    member returns, merged into the result. *)
Lemma build_entry_merged (pre post : props_t) (k : key) (s : string) (m : method)
      (out : val) :
  length_defined (VObj (pre ++ (k, VStr s) :: post)) = Ok false ->
  build (VObj (pre ++ (k, VStr s) :: post)) = Ok out ->
  member k = Some m ->
  exists r, m s = Ok r /\
    (NoDup (keys (own_entries r)) ->
     forall n x, In (n, x) (own_entries r) -> overwrites n post = false ->
       own out n = Some x).
Proof.
  intros L H M.
  destruct (build_split pre post k (VStr s) out L H)
    as (acc1 & t2 & acc3 & _ & V2 & V3 & ->).
  cbn [visit] in V2. rewrite M in V2.
  apply bind_ok in V2. destruct V2 as (r & R & V2).
  exists r. split; [exact R|]. intros N n x I W.
  destruct (set_all_writes (own_entries r) acc1 t2 n x V2 N) as (acc2 & -> & G);
    [apply plain_entries_no_proto; eapply member_writes; eauto|exact I|].
  destruct (visit_props_last post _ _ n x V3 W G) as (acc' & E & G').
  inversion E; subst. exact G'.
Qed.

(** ** The eleven expanders *)

Lemma expanders_member (name : string) (f : method) :
  In (name, f) expanders -> member (KStr name) = Some f.
Proof.
  unfold expanders. intros I. cbn [In] in I.
  repeat (destruct I as [E|I]; [inversion E; subst; reflexivity|]). contradiction.
Qed.

(** They are the eleven shorthand properties, in the same order. *)
Lemma expanders_names : map fst expanders = shorthands.
Proof. reflexivity. Qed.

Lemma set_all_canon (entries acc : props_t) (st' : store) :
  canon acc -> set_all (SObj acc) entries = Ok st' ->
  exists acc', st' = SObj acc' /\ canon acc'.
Proof.
  revert acc. induction entries as [|[k v] entries IH]; intros acc C H.
  - inversion H; subst. eauto.
  - cbn [set_all] in H. apply bind_ok in H. destruct H as (t & S & H).
    assert (exists acc1, t = SObj acc1 /\ canon acc1) as (acc1 & -> & C1).
    { unfold set in S. destruct k as [i|name].
      - inversion S; subst. eexists; split; [reflexivity|now apply canon_prop_set].
      - destruct (String.eqb name "__proto__").
        + destruct v; inversion S; subst; eauto.
        + inversion S; subst. eexists; split; [reflexivity|now apply canon_prop_set]. }
    exact (IH acc1 C1 H).
Qed.

Lemma applyFour_canon (X : list val) (p q : option string) :
  canon (own_entries (_applyFour X p q)).
Proof.
  unfold _applyFour. cbv zeta. cbn [own_entries].
  repeat apply canon_prop_set. constructor.
Qed.

Lemma applyFourCorner_canon (X : list val) (p q : option string) :
  canon (own_entries (_applyFourCorner X p q)).
Proof.
  unfold _applyFourCorner. cbv zeta. cbn [own_entries].
  repeat apply canon_prop_set. constructor.
Qed.

Lemma borderSide_canon (value : string) (side : option string) :
  canon (own_entries (borderSide value side)).
Proof.
  unfold borderSide. cbv zeta.
  destruct (array_indexOf _borderStyles value >? -1)%Z;
    [|destruct (Nat.eqb (List.length (split " " value)) 1);
      destruct (truthy (elem (split " " value) 0));
      destruct (truthy (elem (split " " value) 1));
      destruct (truthy (elem (split " " value) 2))];
    cbn [own_entries]; repeat apply canon_prop_set; constructor.
Qed.

Lemma border_canon (value : string) (r : val) :
  border value = Ok r -> canon (own_entries r).
Proof.
  unfold border, assign. intros H.
  apply bind_ok in H. destruct H as (t1 & S1 & H).
  destruct (set_all_canon _ _ _ canon_nil S1) as (a1 & -> & C1).
  apply bind_ok in H. destruct H as (t2 & S2 & H).
  destruct (set_all_canon _ _ _ C1 S2) as (a2 & -> & C2).
  apply bind_ok in H. destruct H as (t3 & S3 & H).
  destruct (set_all_canon _ _ _ C2 S3) as (a3 & -> & C3).
  apply bind_ok in H. destruct H as (t4 & S4 & H).
  destruct (set_all_canon _ _ _ C3 S4) as (a4 & -> & C4).
  inversion H; subst. exact C4.
Qed.

Lemma borderRadius_canon (value : string) (r : val) :
  borderRadius value = Ok r -> canon (own_entries r).
Proof.
  unfold borderRadius. intros H.
  apply bind_ok in H. destruct H as (p1 & _ & H).
  apply bind_ok in H. destruct H as (p2 & _ & H).
  inversion H; subst. apply applyFourCorner_canon.
Qed.

(** What an expander returns lists no key twice. *)
Lemma expander_canon (name : string) (f : method) (s : string) (r : val) :
  In (name, f) expanders -> f s = Ok r -> canon (own_entries r).
Proof.
  unfold expanders. intros I. cbn [In] in I.
  repeat (destruct I as [E|I];
          [inversion E; subst; clear E; intros R;
           first [ now apply borderRadius_canon with (value := s)
                 | now apply border_canon with (value := s)
                 | inversion R; subst;
                   first [apply applyFour_canon | apply borderSide_canon] ]|]).
  contradiction.
Qed.

(** ** Strings in a mapping *)

(** C2 (as the code has it). In a mapping whose [length] is undefined,
    for a key [k] that holds a string [s], whenever [build] returns: if
    [k] is one of the eleven shorthand names, its expander returns a
    mapping for [s], the key [k] itself is absent from the result, and
    every property of that mapping is found in the result unless a later
    property of the input assigns the same key; if [k] names no member of
    the builder (neither a shorthand nor one of its other methods nor
    anything inherited from [Object.prototype]), the result holds [s]
    under [k] unless a later property of the input assigns [k] (a later
    string under a member name whose result has the key [k]). *)
Theorem build_string_entries (pre post : props_t) (k : key) (s : string) (out : val) :
  length_defined (VObj (pre ++ (k, VStr s) :: post)) = Ok false ->
  NoDup (keys (pre ++ (k, VStr s) :: post)) ->
  build (VObj (pre ++ (k, VStr s) :: post)) = Ok out ->
  (forall name f, In (name, f) expanders -> k = KStr name ->
     exists r, f s = Ok r /\ own out k = None /\
       forall n x, In (n, x) (own_entries r) -> overwrites n post = false ->
         own out n = Some x) /\
  (member k = None -> overwrites k post = false -> own out k = Some (VStr s)).
Proof.
  intros L N H. split.
  - intros name f I ->.
    pose proof (expanders_member name f I) as M.
    destruct (build_entry_merged pre post (KStr name) s f out L H M) as (r & R & W).
    exists r. split; [exact R|]. split.
    + destruct (own out (KStr name)) as [y|] eqn:G; [exfalso|reflexivity].
      destruct (build_provenance _ _ _ _ H G)
        as [(x & I' & _ & [Z|Z])|(k' & s' & m' & r' & _ & M' & R' & I')].
      * congruence.
      * cbn [own_entries] in I'.
        assert (In (KStr name, VStr s) (pre ++ (KStr name, VStr s) :: post)) as J
            by (apply in_or_app; right; now left).
        rewrite (In_unique _ _ _ _ N I' J) in Z. now destruct (Z s).
      * pose proof (member_writes _ _ _ _ M' R') as F.
        rewrite forallb_forall in F. specialize (F _ I').
        unfold expansion_entry in F. cbn [fst snd] in F.
        apply andb_prop in F. destruct F as [F _].
        apply expansion_key_free in F. destruct F as (F & _). congruence.
    + apply W. apply canon_NoDup. eapply expander_canon; eauto.
  - intros M W.
    destruct (build_entry_kept pre post k (VStr s) out L H (or_introl M)) as (y & S & G);
      [|exact W|].
    + intros ->. discriminate M.
    + cbn [stored] in S. inversion S; subst. exact G.
Qed.

Lemma build_string_entries_witness :
  exists out,
    build (VObj [ (KStr "color", VStr "blue"); (KStr "margin", VStr "1px 2px");
                  (KStr "marginTop", VStr "3px"); (KStr "borderStyle", VStr "solid") ]) =
      Ok out /\
    own out (KStr "margin") = None /\
    own out (KStr "marginRight") = Some (VStr "2px") /\
    own out (KStr "color") = Some (VStr "blue").
Proof.
  eexists. split; [reflexivity|].
  edestruct (build_string_entries
               [(KStr "color", VStr "blue")]
               [(KStr "marginTop", VStr "3px"); (KStr "borderStyle", VStr "solid")]
               (KStr "margin") "1px 2px") as (Short & _);
    [reflexivity|apply distinct_NoDup; reflexivity|reflexivity|].
  edestruct (build_string_entries
               []
               [ (KStr "margin", VStr "1px 2px"); (KStr "marginTop", VStr "3px");
                 (KStr "borderStyle", VStr "solid") ]
               (KStr "color") "blue") as (_ & Plain);
    [reflexivity|apply distinct_NoDup; reflexivity|reflexivity|].
  destruct (Short "margin" (fun v => Ok (margin v)) (or_introl eq_refl) eq_refl)
    as (r & R & Drop & Merge).
  inversion R; subst r. clear R.
  split; [exact Drop|]. split.
  - apply Merge; [|reflexivity]. right. now left.
  - apply Plain; reflexivity.
Defined.

(** ** Callables in a mapping *)

Lemma set_agree (a b : props_t) (k k' : key) (v : val) (st' : store) :
  (forall n, n <> k -> lookup n b = lookup n a) ->
  set (SObj a) k' v = Ok st' ->
  exists a' b', st' = SObj a' /\ set (SObj b) k' v = Ok (SObj b') /\
                (forall n, n <> k -> lookup n b' = lookup n a').
Proof.
  intros A H. destruct (key_eqb_spec k' (KStr "__proto__")) as [->|P].
  - unfold set in *. cbn [String.eqb Ascii.eqb Bool.eqb] in *.
    destruct v; inversion H; subst; eauto.
  - rewrite set_SObj_plain in H by assumption. inversion H; subst.
    exists (prop_set a k' v), (prop_set b k' v).
    split; [reflexivity|]. split; [now apply set_SObj_plain|].
    intros n Hn. rewrite !lookup_prop_set. now rewrite (A n Hn).
Qed.

Lemma set_all_agree (entries a b : props_t) (k : key) (st' : store) :
  (forall n, n <> k -> lookup n b = lookup n a) ->
  set_all (SObj a) entries = Ok st' ->
  exists a' b', st' = SObj a' /\ set_all (SObj b) entries = Ok (SObj b') /\
                (forall n, n <> k -> lookup n b' = lookup n a').
Proof.
  revert a b. induction entries as [|[k' v] entries IH]; intros a b A H.
  - inversion H; subst. exists a, b. auto.
  - cbn [set_all] in *. apply bind_ok in H. destruct H as (t & S & H).
    destruct (set_agree a b k k' v t A S) as (a1 & b1 & -> & -> & A1).
    cbn [bind]. exact (IH a1 b1 A1 H).
Qed.

Lemma visit_agree (a b : props_t) (k k' : key) (x : val) (st' : store) :
  (forall n, n <> k -> lookup n b = lookup n a) ->
  visit build (SObj a) k' x = Ok st' ->
  exists a' b', st' = SObj a' /\ visit build (SObj b) k' x = Ok (SObj b') /\
                (forall n, n <> k -> lookup n b' = lookup n a').
Proof.
  intros A H.
  assert (member k' = None \/ (forall s, x <> VStr s) ->
          exists a' b', st' = SObj a' /\ visit build (SObj b) k' x = Ok (SObj b') /\
                        (forall n, n <> k -> lookup n b' = lookup n a')) as Plain.
  { intros N. rewrite (visit_stored (SObj a) _ _ N) in H.
    rewrite (visit_stored (SObj b) _ _ N).
    apply bind_ok in H. destruct H as (y & -> & H). cbn [bind].
    exact (set_agree a b k k' y st' A H). }
  destruct (member k') as [m|] eqn:M; [|auto].
  destruct x; try (apply Plain; right; intros; discriminate).
  cbn [visit] in *. rewrite M in *.
  apply bind_ok in H. destruct H as (r & -> & H). cbn [bind].
  exact (set_all_agree (own_entries r) a b k st' A H).
Qed.

(** Two runs of the loop that start from objects with the same properties
    but for one key end in objects with the same properties but for that
    key. *)
Lemma visit_props_agree (post a b : props_t) (k : key) (st' : store) :
  (forall n, n <> k -> lookup n b = lookup n a) ->
  visit_props build post (SObj a) = Ok st' ->
  exists a' b', st' = SObj a' /\ visit_props build post (SObj b) = Ok (SObj b') /\
                (forall n, n <> k -> lookup n b' = lookup n a').
Proof.
  revert a b. induction post as [|[k' x] post IH]; intros a b A H.
  - inversion H; subst. exists a, b. auto.
  - cbn [visit_props] in *. apply bind_ok in H. destruct H as (t & V & H).
    destruct (visit_agree a b k k' x t A V) as (a1 & b1 & -> & -> & A1).
    cbn [bind]. exact (IH a1 b1 A1 H).
Qed.

Lemma length_defined_callable (pre post : props_t) (k : key) (f g : closure) :
  length_defined (VObj (pre ++ (k, VFun f) :: post)) = Ok false ->
  length_defined (VObj (pre ++ (k, VFun g) :: post)) = Ok false.
Proof.
  cbn [length_defined]. rewrite !lookup_app.
  destruct (lookup (KStr "length") pre); [auto|].
  cbn [lookup]. destruct (key_eqb (KStr "length") k); [discriminate|auto].
Qed.

(** C8. In a mapping whose [length] is undefined, whatever properties
    stand before and after, under any key other than [__proto__] that no
    later property assigns, [build] places for a callable [f] a callable
    that, invoked with any arguments, invokes [f] with them (and performs
    no other host call) and returns what [build] makes of the result.
    What [build] returns does not depend on [f]: with any other callable
    in its place, [build] returns as well and the result is the same
    under every other key, so that nothing of an invocation of [f] can
    have entered it.  A mapping that holds only a callable is built, for
    every callable whatsoever, into the mapping that holds only its
    wrapper.  When no value with a length owns a callable [map], every
    callable of a result is such a wrapper of the callable that the input
    holds under the same key. *)
Theorem build_wraps_callables :
  (forall pre post k f out,
     length_defined (VObj (pre ++ (k, VFun f) :: post)) = Ok false ->
     k <> KStr "__proto__" -> overwrites k post = false ->
     build (VObj (pre ++ (k, VFun f) :: post)) = Ok out ->
     exists w, own out k = Some (VFun w) /\
       forall env args,
         call env w args = (r <- call env f args ;; build r) /\
         snd (call_traced env w args) = snd (call_traced env f args)) /\
  (forall pre post k f g out,
     length_defined (VObj (pre ++ (k, VFun f) :: post)) = Ok false ->
     build (VObj (pre ++ (k, VFun f) :: post)) = Ok out ->
     exists out', build (VObj (pre ++ (k, VFun g) :: post)) = Ok out' /\
                  forall n, n <> k -> own out' n = own out n) /\
  (forall k f, k <> KStr "__proto__" -> k <> KStr "length" ->
     build (VObj [(k, VFun f)]) = Ok (VObj [(k, VFun (Wrapped f))])) /\
  (forall styles out k w,
     native_maps styles -> build styles = Ok out -> own out k = Some (VFun w) ->
     exists f, In (k, VFun f) (own_entries styles) /\ w = Wrapped f).
Proof.
  split; [|split; [|split]].
  - intros pre post k f out L P W H.
    destruct (build_entry_kept pre post k (VFun f) out L H) as (y & S & G);
      [right; intros; discriminate|exact P|exact W|].
    cbn [stored] in S. inversion S; subst y. clear S.
    exists (Wrapped f). split; [exact G|].
    intros env args. split; [reflexivity|].
    cbn [call_traced]. now destruct (call_traced env f args).
  - intros pre post k f g out L H.
    destruct (build_split pre post k (VFun f) out L H)
      as (acc1 & t2 & acc3 & V1 & V2 & V3 & ->).
    cbn [visit] in V2.
    destruct (key_eqb_spec k (KStr "__proto__")) as [->|P]; [discriminate V2|].
    rewrite set_SObj_plain in V2 by assumption. inversion V2; subst t2. clear V2.
    destruct (visit_props_agree post
                (prop_set acc1 k (VFun (Wrapped f)))
                (prop_set acc1 k (VFun (Wrapped g))) k (SObj acc3)) as (a' & b' & E & V & A);
      [|exact V3|].
    { intros n Hn. rewrite !lookup_prop_set.
      now rewrite (key_eqb_neq _ _ Hn). }
    inversion E; subst a'. clear E.
    exists (VObj b'). split; [|intros n Hn; exact (A n Hn)].
    rewrite build_unfold, (length_defined_callable pre post k f g L).
    cbn [bind fresh_store own_entries].
    rewrite visit_props_app, V1. cbn [bind visit_props visit].
    rewrite set_SObj_plain by assumption. cbn [bind]. now rewrite V.
  - intros k f P L. cbn [build length_defined lookup].
    replace (key_eqb (KStr "length") k) with false
      by (symmetry; apply key_eqb_neq; congruence).
    cbn [bind visit_props visit]. unfold set.
    destruct k as [i|name]; [reflexivity|].
    destruct (String.eqb_spec name "__proto__"); [congruence|reflexivity].
  - intros styles out k w _ H G.
    destruct (build_provenance _ _ _ _ H G)
      as [(x & I & S & _)|(k' & s & m & r & _ & M & R & I)].
    + apply stored_fun in S. destruct S as (f & -> & ->). eauto.
    + exfalso. eapply plain_not_fun; [|exact I]. eapply member_writes; eauto.
Qed.

Lemma build_wraps_callables_witness :
  exists out,
    build (VObj [ (KStr "margin", VStr "1px"); (KStr "style", VFun (Host 7));
                  (KStr "color", VStr "red") ]) = Ok out /\
    exists w, own out (KStr "style") = Some (VFun w) /\
      forall env args,
        call env w args = (r <- call env (Host 7) args ;; build r) /\
        snd (call_traced env w args) = snd (call_traced env (Host 7) args).
Proof.
  eexists. split; [reflexivity|].
  destruct build_wraps_callables as (Place & _).
  apply (Place [(KStr "margin", VStr "1px")] [(KStr "color", VStr "red")]
               (KStr "style") (Host 7)); [reflexivity|discriminate|reflexivity|reflexivity].
Defined.

(** ** Strings of a result *)

(** X13. When no value with a length owns a callable [map] (the loop
    would store whatever that callable returns), a result of [build]
    holds no string under a key that names a member of the builder: no
    shorthand is left unexpanded at the top level of a result. *)
Theorem build_leaves_no_shorthand (styles out : val) (k : key) (s : string) :
  native_maps styles ->
  build styles = Ok out -> own out k = Some (VStr s) -> member k = None.
Proof.
  intros _ H G.
  destruct (build_provenance _ _ _ _ H G)
    as [(x & Ix & S & N)|(k' & s' & m & r & _ & M & R & Ir)].
  - apply stored_string in S. subst x.
    destruct N as [N|N]; [exact N|now destruct (N s)].
  - pose proof (member_writes _ _ _ _ M R) as F.
    rewrite forallb_forall in F. specialize (F _ Ir).
    unfold expansion_entry in F. cbn [fst] in F.
    apply andb_prop in F. destruct F as (F & _).
    exact (proj1 (expansion_key_free k F)).
Qed.

Lemma build_leaves_no_shorthand_witness :
  build (VObj [ (KStr "borderTop", VStr "1px solid");
                (KStr "variants", dense [VObj [(KStr "color", VStr "red")]]) ]) =
    Ok (VObj [ (KStr "borderTopWidth", VStr "1px"); (KStr "borderTopStyle", VStr "solid");
               (KStr "variants", dense [VObj [(KStr "color", VStr "red")]]) ]) /\
  member (KStr "borderTopStyle") = None.
Proof.
  split; [reflexivity|].
  apply (build_leaves_no_shorthand
           (VObj [ (KStr "borderTop", VStr "1px solid");
                   (KStr "variants", dense [VObj [(KStr "color", VStr "red")]]) ])
           (VObj [ (KStr "borderTopWidth", VStr "1px"); (KStr "borderTopStyle", VStr "solid");
                   (KStr "variants", dense [VObj [(KStr "color", VStr "red")]]) ])
           (KStr "borderTopStyle") "solid").
  - intros k x I _. cbn [own_entries In] in I.
    destruct I as [E|[E|[]]]; inversion E; subst; discriminate.
  - reflexivity.
  - reflexivity.
Defined.

(** ** Arrays in a mapping *)

(** X16. In a mapping whose [length] is undefined, an array without an
    own [map] that stands under a key other than [__proto__] which no
    later property assigns is replaced, whenever [build] returns, by a new
    array of the same length: each element is replaced by its [build], the
    holes stay holes, and the named properties of the array are not
    carried over.  An array whose own [map] is not callable keeps [build]
    from returning. *)
Theorem array_value_mapped (pre post : props_t) (k : key)
        (items : list (option val)) (named : props_t) :
  length_defined (VObj (pre ++ (k, VArr items named) :: post)) = Ok false ->
  (lookup (KStr "map") named = None ->
   k <> KStr "__proto__" -> overwrites k post = false ->
   forall out, build (VObj (pre ++ (k, VArr items named) :: post)) = Ok out ->
   exists ys, own out k = Some (VArr ys []) /\
     List.length ys = List.length items /\
     forall i,
       (nth_error items i = Some None -> nth_error ys i = Some None) /\
       (forall y, nth_error items i = Some (Some y) ->
          exists y', nth_error ys i = Some (Some y') /\ build y = Ok y')) /\
  (forall x, lookup (KStr "map") named = Some x -> (forall c, x <> VFun c) ->
   forall out, build (VObj (pre ++ (k, VArr items named) :: post)) <> Ok out).
Proof.
  intros L. split.
  - intros M P W out H.
    destruct (build_entry_kept pre post k (VArr items named) out L H) as (y & S & G);
      [right; intros; discriminate|exact P|exact W|].
    cbn [stored length_defined bind] in S.
    unfold call_map, find_map in S. rewrite M in S.
    apply bind_ok in S. destruct S as (ys & B & S). inversion S; subst y.
    exists ys. split; [exact G|]. now apply map_build_slots.
  - intros x M N out H.
    destruct (build_split pre post k (VArr items named) out L H)
      as (acc1 & t2 & acc3 & _ & V2 & _).
    cbn [visit length_defined bind] in V2.
    unfold call_map, find_map in V2. rewrite M in V2.
    destruct x; discriminate V2.
Qed.

Lemma array_value_mapped_witness :
  exists out,
    build (VObj [ (KStr "padding", VStr "2px");
                  (KStr "variants",
                   VArr [Some (VObj [(KStr "margin", VStr "0")]); None]
                        [(KStr "note", VStr "x")]);
                  (KStr "color", VStr "red") ]) = Ok out /\
    exists ys, own out (KStr "variants") = Some (VArr ys []) /\
               List.length ys = 2 /\ nth_error ys 1 = Some None.
Proof.
  eexists. split; [reflexivity|].
  edestruct (array_value_mapped
               [(KStr "padding", VStr "2px")] [(KStr "color", VStr "red")]
               (KStr "variants")
               [Some (VObj [(KStr "margin", VStr "0")]); None]
               [(KStr "note", VStr "x")]) as (Mapped & _); [reflexivity|].
  edestruct Mapped as (ys & G & Len & Slots);
    [reflexivity|discriminate|reflexivity|reflexivity|].
  exists ys. split; [exact G|]. split; [exact Len|].
  apply (proj1 (Slots 1)). reflexivity.
Defined.
